(** * lirc-indicator: a shallow embedding of lirc-indicator.c

    The program is modelled as a state-and-exit monad over the globals
    [gpio_pin] and [isExported], the installed SIGINT handler, the stack
    buffer [buf] of [main], and a trace of the externally visible calls it
    makes (fopen/fprintf/fclose on the sysfs GPIO files, socket calls,
    stdout/stderr messages, sleeps, reads).  Results of the OS calls come
    from an oracle that may depend on the whole history.  Every C statement
    that touches the outside world or a global is preceded by an
    instruction boundary [bd]; [main] is run with [bd := tick], which may
    deliver SIGINT at a chosen boundary. *)

From Stdlib Require Import ZArith List Bool String Ascii Lia.
Import ListNotations.
Open Scope Z_scope.

(** ** Data model *)

(** The sysfs control files the program writes. *)
Inductive file : Type :=
| FExport
| FUnexport
| FDirection (pin : Z)
| FValue (pin : Z).

(** What [fprintf] writes into a control file. *)
Inductive data : Type :=
| DNum (n : Z)      (* "%d\n" *)
| DOut.             (* "out\n" *)

(** OS services whose results come from the environment. *)
Inductive sysop : Type :=
| SOpen (f : file)                 (* fopen(..., "w"): 0 = ok, else errno *)
| SWrite (f : file) (d : data)     (* fprintf: its return value *)
| SSocket                          (* socket(): 0 = ok, else errno *)
| SConnect (path : string)         (* connect(): 0 = ok, else errno *)
| SFork                            (* fork(): the pid *)
| SPerror (errno : Z).             (* perror() with this errno: errno after
                                      it (glibc may change it, e.g. to
                                      EINVAL when it cannot fdopen a
                                      duplicate of a write-only stderr) *)

(** Result of [read(lirc_fd, buf, 128)]: -1 with errno, or the bytes. *)
Inductive rreply : Type :=
| ReadErr (errno : Z)
| ReadData (bytes : list ascii).

(** Observable events, in program order. *)
Inductive event : Type :=
| EOpen (f : file) (r : Z)
| EWrite (f : file) (d : data) (r : Z)
| EClose (f : file)
| EErr                      (* a message on stderr *)
| EOut                      (* a message on stdout *)
| ESleep (us : Z)
| ESocket (r : Z)
| EConnect (path : string) (r : Z)
| EFork (pid : Z)
| EHandler                  (* sigaction(SIGINT, onExit) *)
| ESetExported              (* isExported = 1 *)
| ERead (r : rreply)
| ESeek                     (* lseek(lirc_fd, 0, SEEK_END) *)
| ESig.                     (* SIGINT delivered *)

Record st : Type := mkSt {
  gpio_pin : Z;
  isExported : Z;
  handler_on : bool;
  pending : option nat;     (* boundaries left before SIGINT arrives *)
  buf : list ascii;         (* char buf[128] of main *)
  trace : list event
}.

Definition emit_st (e : event) (s : st) : st :=
  mkSt (gpio_pin s) (isExported s) (handler_on s) (pending s) (buf s)
       (trace s ++ [e]).
Definition set_pin_st (p : Z) (s : st) : st :=
  mkSt p (isExported s) (handler_on s) (pending s) (buf s) (trace s).
Definition set_exported_st (v : Z) (s : st) : st :=
  mkSt (gpio_pin s) v (handler_on s) (pending s) (buf s) (trace s).
Definition set_handler_st (s : st) : st :=
  mkSt (gpio_pin s) (isExported s) true (pending s) (buf s) (trace s).
Definition set_pending_st (p : option nat) (s : st) : st :=
  mkSt (gpio_pin s) (isExported s) (handler_on s) p (buf s) (trace s).
Definition set_buf_st (b : list ascii) (s : st) : st :=
  mkSt (gpio_pin s) (isExported s) (handler_on s) (pending s) b (trace s).

(** How the process ends: [exit(code)] (or [return] from [main]), killed
    by the default action of SIGINT, or an input outside the model
    (undefined behaviour of the C code or syntax not modelled). *)
Inductive status : Type :=
| Exited (code : Z)
| Killed
| Unmodelled.

Inductive res (A : Type) : Type :=
| Ret (a : A) (s : st)
| Halt (h : status) (s : st).
Arguments Ret {A}.
Arguments Halt {A}.

Definition M (A : Type) : Type := st -> res A.

Definition ret {A} (a : A) : M A := fun s => Ret a s.
Definition bind {A B} (m : M A) (k : A -> M B) : M B :=
  fun s => match m s with
           | Ret a s' => k a s'
           | Halt h s' => Halt h s'
           end.
Definition get : M st := fun s => Ret s s.
Definition modify (f : st -> st) : M unit := fun s => Ret tt (f s).
Definition halt {A} (h : status) : M A := fun s => Halt h s.

Notation "x <- m ;; k" := (bind m (fun x => k))
  (at level 100, m at next level, right associativity).
Notation "m ;; k" := (bind m (fun _ => k))
  (at level 100, right associativity).

Definition st_of {A} (r : res A) : st :=
  match r with Ret _ s => s | Halt _ s => s end.

(** ** C library helpers *)

Definition NUL : ascii := Ascii.zero.

(** The C string starting at a memory region: bytes up to the first NUL. *)
Fixpoint cstr (l : list ascii) : list ascii :=
  match l with
  | [] => []
  | c :: l' => if Ascii.eqb c NUL then [] else c :: cstr l'
  end.

Fixpoint prefixb (p l : list ascii) : bool :=
  match p, l with
  | [], _ => true
  | c :: p', d :: l' => Ascii.eqb c d && prefixb p' l'
  | _ :: _, [] => false
  end.

(** [strstr(h, n) != NULL] for C strings [h] and [n]. *)
Fixpoint strstr (h n : list ascii) : bool :=
  prefixb n h ||
  match h with
  | [] => false
  | _ :: h' => strstr h' n
  end.

(** [read(fd, buf, 128)] stores at most 128 bytes at the start of [buf]
    and leaves the rest of the buffer as it was. *)
Definition store_read (d : list ascii) (b : list ascii) : list ascii :=
  List.firstn 128 d ++ List.skipn (List.length (List.firstn 128 d)) b.

(** *** [strtold] followed by the conversion to [int] *)

Definition is_space (c : ascii) : bool :=
  let n := nat_of_ascii c in
  Nat.eqb n 32 || (Nat.leb 9 n && Nat.leb n 13).

Definition is_digit (c : ascii) : bool :=
  let n := nat_of_ascii c in Nat.leb 48 n && Nat.leb n 57.

Definition to_lower (c : ascii) : ascii :=
  let n := nat_of_ascii c in
  if Nat.leb 65 n && Nat.leb n 90 then ascii_of_nat (n + 32) else c.

Fixpoint skip_space (l : list ascii) : list ascii :=
  match l with
  | c :: l' => if is_space c then skip_space l' else l
  | [] => []
  end.

Fixpoint span_digits (l : list ascii) : list ascii * list ascii :=
  match l with
  | c :: l' =>
      if is_digit c then let (ds, r) := span_digits l' in (c :: ds, r)
      else ([], l)
  | [] => ([], [])
  end.

Definition digits_value (ds : list ascii) : Z :=
  fold_left (fun acc c => acc * 10 + (Z.of_nat (nat_of_ascii c) - 48)) ds 0.

(** What [strtold] recognises at the start of a string.  [NoConv] is the
    case where no conversion is performed ([strtold] returns 0); [DecInt]
    a decimal integer not followed by a fraction or an exponent; [Unmod]
    the other numeric forms (fractions, exponents, hexadecimal, infinity,
    NaN), which this model does not evaluate. *)
Inductive scan : Type :=
| NoConv
| DecInt (neg : bool) (ds : list ascii)
| Unmod.

Definition strtold_scan (l : list ascii) : scan :=
  let l1 := skip_space l in
  let '(neg, l2) :=
    match l1 with
    | c :: r => if Ascii.eqb c "-"%char then (true, r)
                else if Ascii.eqb c "+"%char then (false, r)
                else (false, l1)
    | [] => (false, l1)
    end in
  let '(ds, rest) := span_digits l2 in
  match ds with
  | [] =>
      match rest with
      | c :: r =>
          if Ascii.eqb c "."%char then
            match r with
            | d :: _ => if is_digit d then Unmod else NoConv
            | [] => NoConv
            end
          else if prefixb (list_ascii_of_string "inf") (map to_lower rest)
                  || prefixb (list_ascii_of_string "nan") (map to_lower rest)
          then Unmod else NoConv
      | [] => NoConv
      end
  | _ =>
      match rest with
      | c :: _ =>
          if Ascii.eqb c "."%char || Ascii.eqb (to_lower c) "e"%char
             || (prefixb ds ["0"%char] && Nat.eqb (List.length ds) 1
                 && Ascii.eqb (to_lower c) "x"%char)
          then Unmod else DecInt neg ds
      | [] => DecInt neg ds
      end
  end.

Definition INT_MIN : Z := - 2 ^ 31.
Definition INT_MAX : Z := 2 ^ 31 - 1.

(** [(int) strtold(a, NULL)]; [None] where the value is not modelled or
    does not fit an [int] (undefined behaviour of the conversion). *)
Definition strtold_int (a : string) : option Z :=
  match strtold_scan (list_ascii_of_string a) with
  | NoConv => Some 0
  | Unmod => None
  | DecInt neg ds =>
      let v := digits_value ds in
      let z := if neg then - v else v in
      if (INT_MIN <=? z) && (z <=? INT_MAX) then Some z else None
  end.

(** The pins accepted by the [switch (gpio_pin)] of [main]. *)
Definition pin_allow_list : list Z :=
  [0; 1; 2; 3; 4; 7; 8; 9; 10; 11; 14; 15; 17; 18; 21; 22; 23; 24; 25;
   27; 28; 29; 30; 31].

Definition valid_pin (p : Z) : bool := existsb (Z.eqb p) pin_allow_list.

Definition DEFAULT_PIN : Z := 4.
Definition DEFAULT_SOCKET : string := "/var/run/lirc/lircd".
Definition EXIT_SUCCESS : Z := 0.
Definition EXIT_FAILURE : Z := 1.

(** The marker searched for by [strstr(buf, "_UP ")]. *)
Definition marker : list ascii := list_ascii_of_string "_UP ".

(** Command-line options as [getopt_long] hands them to [main], in order. *)
Inductive opt : Type :=
| OptHelp
| OptVersion
| OptDaemon
| OptUnknown (c : ascii).

(** ** The program *)

Section Code.

(** Results of the OS calls, given the history so far. *)
Variable os : list event -> sysop -> Z.
(** Results of [read] on the LIRC socket, given the history so far. *)
Variable rd : list event -> rreply.
(** The memory that follows [buf] on the stack: [strstr] keeps scanning
    into it when the buffer holds no NUL. *)
Variable beyond : list ascii.
(** What happens at an instruction boundary. *)
Variable bd : M unit.

Definition emit (e : event) : M unit := modify (emit_st e).

Definition syscall (o : sysop) (mk : Z -> event) : M Z :=
  bd ;; fun s => let r := os (trace s) o in Ret r (emit_st (mk r) s).

Definition fopen_w (f : file) : M Z := syscall (SOpen f) (EOpen f).
Definition fprintf_w (f : file) (d : data) : M Z :=
  syscall (SWrite f d) (EWrite f d).
Definition fclose_w (f : file) : M unit := bd ;; emit (EClose f).
Definition report : M unit := bd ;; emit EErr.
Definition print : M unit := bd ;; emit EOut.
Definition usleep (us : Z) : M unit := bd ;; emit (ESleep us).
Definition exit {A} (code : Z) : M A := bd ;; halt (Exited code).
(** [perror(s)]: one message on stderr; returns [errno] afterwards. *)
Definition perror (errno : Z) : M Z := syscall (SPerror errno) (fun _ => EErr).

(** [unexportGPIO]: lines 80-95. *)
Definition unexportGPIO (pin : Z) : M unit :=
  r <- fopen_w FUnexport ;;
  if negb (r =? 0) then report ;; exit r
  else
    w <- fprintf_w FUnexport (DNum pin) ;;
    if w <? 0 then report ;; exit w
    else fclose_w FUnexport.

(** The guarded release at the start of [cleanup]: lines 45-47. *)
Definition release_if_exported : M unit :=
  bd ;;
  s <- get ;;
  if negb (isExported s =? 0) && (0 <=? gpio_pin s)
  then unexportGPIO (gpio_pin s)
  else ret tt.

(** [cleanup]: lines 43-50. *)
Definition cleanup {A} (retval : Z) : M A :=
  release_if_exported ;; exit retval.

(** [exportGPIO]: lines 60-75. *)
Definition exportGPIO (pin : Z) : M unit :=
  r <- fopen_w FExport ;;
  if negb (r =? 0) then report ;; cleanup r
  else
    w <- fprintf_w FExport (DNum pin) ;;
    if w <? 0 then report ;; cleanup w
    else fclose_w FExport.

(** [setAsOutput]: lines 98-115. *)
Definition setAsOutput (pin : Z) : M unit :=
  r <- fopen_w (FDirection pin) ;;
  if negb (r =? 0) then report ;; cleanup r
  else
    w <- fprintf_w (FDirection pin) DOut ;;
    if w <? 0 then report ;; cleanup w
    else fclose_w (FDirection pin).

(** [setValue]: lines 118-140. *)
Definition setValue (pin value : Z) : M unit :=
  (if negb (value =? 0) && negb (value =? 1)
   then report ;; cleanup 0
   else ret tt) ;;
  r <- fopen_w (FValue pin) ;;
  if negb (r =? 0) then report ;; cleanup r
  else
    w <- fprintf_w (FValue pin) (DNum value) ;;
    if w <? 0 then report ;; cleanup w
    else fclose_w (FValue pin).

(** [flash]: lines 143-148. *)
Definition flash (pin : Z) : M unit :=
  setValue pin 1 ;; usleep 100000 ;; setValue pin 0.

(** The [getopt_long] loop of [main]: lines 170-193.  Returns [isDaemon].
    [opterr] keeps its default 1, so on an unknown option [getopt_long]
    prints its own diagnostic before returning '?'. *)
Fixpoint getopt_loop (opts : list opt) (isDaemon : bool) : M bool :=
  match opts with
  | [] => ret isDaemon
  | OptHelp :: _ =>
      print ;; print ;; print ;; print ;; print ;; exit EXIT_SUCCESS
  | OptVersion :: _ => print ;; exit EXIT_SUCCESS
  | OptUnknown _ :: _ => report ;; report ;; report ;; exit EXIT_FAILURE
  | OptDaemon :: opts' => getopt_loop opts' true
  end.

Definition set_pin (p : Z) : M unit := bd ;; modify (set_pin_st p).

Definition set_pin_from (a : string) : M unit :=
  match strtold_int a with
  | Some p => set_pin p
  | None => halt Unmodelled
  end.

(** [strcpy(addr.sun_path, path)]: [sun_path] holds 108 bytes, so a path
    of 108 bytes or more (with its NUL) overflows it: undefined behaviour,
    not modelled. *)
Definition SUN_PATH_LEN : nat := 108.
Definition strcpy_sun_path (path : string) : M string :=
  if Nat.leb SUN_PATH_LEN (String.length path) then halt Unmodelled
  else ret path.

(** The positional arguments: lines 194-215.  Returns [addr.sun_path]. *)
Definition set_args (pos : list string) : M string :=
  match pos with
  | [] => set_pin DEFAULT_PIN ;; ret DEFAULT_SOCKET
  | [a] => set_pin_from a ;; ret DEFAULT_SOCKET
  | [a; path] => set_pin_from a ;; strcpy_sun_path path
  | _ => report ;; report ;; exit EXIT_FAILURE
  end.

(** The pin check: lines 217-249. *)
Definition check_pin : M unit :=
  bd ;;
  s <- get ;;
  if valid_pin (gpio_pin s) then ret tt
  else report ;; exit EXIT_FAILURE.

(** Daemonizing: lines 251-263. *)
Definition daemonize (isDaemon : bool) : M unit :=
  if isDaemon then
    pid <- syscall SFork EFork ;;
    if pid <? 0 then exit EXIT_FAILURE
    else if 0 <? pid then exit EXIT_SUCCESS
    else ret tt
  else ret tt.

(** Installing [onExit] for SIGINT: lines 266-270. *)
Definition install_handler : M unit :=
  bd ;; modify set_handler_st ;; emit EHandler.

(** LIRC init: lines 273-282. *)
Definition lirc_init (path : string) : M unit :=
  r <- syscall SSocket ESocket ;;
  if negb (r =? 0) then e <- perror r ;; exit e
  else
    c <- syscall (SConnect path) (EConnect path) ;;
    if negb (c =? 0) then report ;; exit c
    else ret tt.

Definition set_exported : M unit :=
  bd ;; modify (set_exported_st 1) ;; emit ESetExported.

(** GPIO init: lines 284-288. *)
Definition gpio_init : M unit :=
  s <- get ;;
  exportGPIO (gpio_pin s) ;;
  set_exported ;;
  s <- get ;;
  setAsOutput (gpio_pin s).

(** [i = read(lirc_fd, buf, 128)]. *)
Definition read_lirc : M rreply :=
  bd ;;
  fun s =>
    let r := rd (trace s) in
    let s' := emit_st (ERead r) s in
    match r with
    | ReadErr _ => Ret r s'
    | ReadData d => Ret r (set_buf_st (store_read d (buf s')) s')
    end.

(** [!strstr(buf, "_UP ")]: the event filter of line 303. *)
Definition is_actionable (b : list ascii) : bool :=
  negb (strstr (cstr (b ++ beyond)) marker).

(** The event loop, lines 292-309, for at most [fuel] iterations. *)
Fixpoint main_loop (fuel : nat) : M unit :=
  match fuel with
  | O => ret tt
  | S n =>
      r <- read_lirc ;;
      match r with
      | ReadErr e => e' <- perror e ;; cleanup e'
      | ReadData d =>
          if Nat.eqb (List.length (List.firstn 128 d)) 0 then cleanup 0
          else
            bd ;;
            s <- get ;;
            (if is_actionable (buf s) then flash (gpio_pin s) else ret tt) ;;
            bd ;; emit ESeek ;;
            main_loop n
      end
  end.

(** [main] up to the event loop: lines 151-288. *)
Definition main_init (opts : list opt) (pos : list string) : M unit :=
  isDaemon <- getopt_loop opts false ;;
  path <- set_args pos ;;
  check_pin ;;
  daemonize isDaemon ;;
  install_handler ;;
  lirc_init path ;;
  gpio_init.

(** [main]: lines 151-310. *)
Definition main (opts : list opt) (pos : list string) (fuel : nat)
  : M unit :=
  main_init opts pos ;;
  main_loop fuel.

End Code.

(** [onExit]: lines 53-55.  SIGINT is blocked while its handler runs
    ([sa_flags] is 0), so the handler has no signal boundaries. *)
Definition onExit (os : list event -> sysop -> Z) : M unit :=
  cleanup os (ret tt) 1.

(** An instruction boundary: SIGINT arrives when the countdown reaches 0;
    it runs [onExit] once installed, and kills the process before. *)
Definition tick (os : list event -> sysop -> Z) : M unit :=
  fun s =>
    match pending s with
    | Some O =>
        let s' := emit_st ESig (set_pending_st None s) in
        if handler_on s then onExit os s' else Halt Killed s'
    | Some (S n) => Ret tt (set_pending_st (Some n) s)
    | None => Ret tt s
    end.

(** The process state at start-up; [buf0] is the initial (uninitialised)
    content of [buf], [sig] the boundary at which SIGINT arrives, if any. *)
Definition init_st (buf0 : list ascii) (sig : option nat) : st :=
  mkSt (-1) 0 false sig buf0 [].

Definition run_main os rd beyond opts pos fuel buf0 sig : res unit :=
  main os rd beyond (tick os) opts pos fuel (init_st buf0 sig).

(** ** Observations on traces and concrete environments *)

Definition is_gpio (e : event) : bool :=
  match e with
  | EOpen _ _ | EWrite _ _ _ | EClose _ | ESetExported => true
  | _ => false
  end.

(** The condition [isExported && gpio_pin >= 0] tested by [cleanup]. *)
Definition release_cond (s : st) : bool :=
  negb (isExported s =? 0) && (0 <=? gpio_pin s).

(** Calls of [unexportGPIO]: each starts by opening the unexport file. *)
Definition count_unexport (t : list event) : nat :=
  List.length (List.filter (fun e => match e with EOpen FUnexport _ => true
                                                  | _ => false end) t).

(** Completed writes ([fprintf] result >= 0) to a value file. *)
Definition value_writes (t : list event) : list Z :=
  List.flat_map (fun e => match e with
                          | EWrite (FValue _) (DNum v) w =>
                              if 0 <=? w then [v] else []
                          | _ => [] end) t.

(** An environment where every call succeeds; [fprintf] reports 2 bytes
    and [perror] leaves [errno] as it was. *)
Definition os_ok : list event -> sysop -> Z :=
  fun _ o => match o with SWrite _ _ => 2 | SPerror e => e | _ => 0 end.

(** As [os_ok], but the value files cannot be opened (EACCES). *)
Definition os_novalue : list event -> sysop -> Z :=
  fun t o => match o with SOpen (FValue _) => 13 | _ => os_ok t o end.

(** As [os_ok], but the unexport file cannot be opened (EACCES). *)
Definition os_nounexport : list event -> sysop -> Z :=
  fun t o => match o with SOpen FUnexport => 13 | _ => os_ok t o end.

(** As [os_ok], but the LIRC socket refuses the connection (ECONNREFUSED). *)
Definition os_noconn : list event -> sysop -> Z :=
  fun t o => match o with SConnect _ => 111 | _ => os_ok t o end.

(** As [os_ok], but [fork] returns the given pid. *)
Definition os_fork (pid : Z) : list event -> sysop -> Z :=
  fun t o => match o with SFork => pid | _ => os_ok t o end.

(** As [os_ok], but [socket] fails (EAFNOSUPPORT). *)
Definition os_nosock : list event -> sysop -> Z :=
  fun t o => match o with SSocket => 97 | _ => os_ok t o end.

(** As [os_ok], but the direction files cannot be opened (ENOENT). *)
Definition os_nodir : list event -> sysop -> Z :=
  fun t o => match o with SOpen (FDirection _) => 2 | _ => os_ok t o end.

Definition reads_done (t : list event) : nat :=
  List.length (List.filter (fun e => match e with ERead _ => true
                                                  | _ => false end) t).

(** The LIRC socket delivers the given reads, then end of stream. *)
Definition rd_list (l : list rreply) : list event -> rreply :=
  fun t => nth (reads_done t) l (ReadData []).

Definition zero_buf : list ascii := List.repeat NUL 128.

(** LIRC lines: a button release, and a short line of other traffic. *)
Definition release_line : list ascii := list_ascii_of_string "KEY_1_UP remote".
Definition short_line : list ascii := list_ascii_of_string "x".

(** A state inside the event loop: pin 4 exported, handler installed. *)
Definition loop_st : st := mkSt 4 1 true None zero_buf [].

(** ** Reasoning about completed computations *)

(** Two states that agree on everything but the pending signal and the
    trace. *)
Definition agree (s s' : st) : Prop :=
  gpio_pin s' = gpio_pin s /\ isExported s' = isExported s /\
  handler_on s' = handler_on s /\ buf s' = buf s.

Lemma agree_refl : forall s, agree s s.
Proof. intro s; repeat split. Qed.

Lemma agree_trans : forall s1 s2 s3, agree s1 s2 -> agree s2 s3 -> agree s1 s3.
Proof.
  unfold agree; intros s1 s2 s3 (H1 & H2 & H3 & H4) (G1 & G2 & G3 & G4).
  repeat split; congruence.
Qed.

Lemma agree_emit : forall e s, agree s (emit_st e s).
Proof. intros; repeat split. Qed.

Lemma bind_Ret_inv : forall A B (m : M A) (k : A -> M B) s b s'',
  bind m k s = Ret b s'' ->
  exists a s', m s = Ret a s' /\ k a s' = Ret b s''.
Proof.
  unfold bind; intros A B m k s b s'' H.
  destruct (m s) as [a s'|h s']; [eauto | discriminate].
Qed.

Lemma tick_Ret : forall os s u s',
  tick os s = Ret u s' -> agree s s' /\ trace s' = trace s.
Proof.
  unfold tick; intros os s u s' H.
  destruct (pending s) as [[|n]|].
  - destruct (handler_on s).
    + unfold onExit, cleanup, bind, exit, halt, ret in H.
      match type of H with
      | match ?x with _ => _ end = _ => destruct x; discriminate
      end.
    + discriminate.
  - injection H; intros <- _; split; [repeat split | reflexivity].
  - injection H; intros <- _; split; [repeat split | reflexivity].
Qed.

Section Frame.

Variable os : list event -> sysop -> Z.
Variable bd : M unit.
Hypothesis bd_Ret :
  forall s u s', bd s = Ret u s' -> agree s s' /\ trace s' = trace s.

Lemma exit_not_Ret : forall A c s a s', @exit bd A c s <> Ret a s'.
Proof.
  unfold exit, bind, halt; intros A c s a s'.
  destruct (bd s); discriminate.
Qed.

Lemma cleanup_not_Ret : forall A c s a s', @cleanup os bd A c s <> Ret a s'.
Proof.
  unfold cleanup; intros A c s a s' H.
  apply bind_Ret_inv in H as (u & s1 & _ & H).
  eapply exit_not_Ret; exact H.
Qed.

Lemma emit_Ret : forall e s u s',
  (bd ;; emit e) s = Ret u s' -> agree s s' /\ trace s' = trace s ++ [e].
Proof.
  intros e s u s' H.
  apply bind_Ret_inv in H as (v & s1 & H1 & H2).
  apply bd_Ret in H1 as [A1 T1].
  unfold emit, modify in H2; injection H2; intros <- _.
  split; [eapply agree_trans; [exact A1 | apply agree_emit]|].
  simpl; rewrite T1; reflexivity.
Qed.

Lemma syscall_Ret : forall o mk s r s',
  syscall os bd o mk s = Ret r s' ->
  r = os (trace s) o /\ agree s s' /\ trace s' = trace s ++ [mk r].
Proof.
  unfold syscall; intros o mk s r s' H.
  apply bind_Ret_inv in H as (v & s1 & H1 & H2).
  apply bd_Ret in H1 as [A1 T1].
  injection H2; intros <- <-.
  split; [rewrite T1; reflexivity|].
  split; [eapply agree_trans; [exact A1 | apply agree_emit]|].
  simpl; rewrite T1; reflexivity.
Qed.

(** A value write that completes opened the value file, wrote the value
    with a non-negative [fprintf] result and closed the file. *)
Lemma setValue_Ret : forall pin v s u s',
  setValue os bd pin v s = Ret u s' ->
  (v = 0 \/ v = 1) /\ agree s s' /\
  exists w, 0 <= w /\
    trace s' = trace s ++ [EOpen (FValue pin) 0; EWrite (FValue pin) (DNum v) w;
                           EClose (FValue pin)].
Proof.
  unfold setValue; intros pin v s u s' H.
  apply bind_Ret_inv in H as (x & s1 & H1 & H).
  destruct (negb (v =? 0) && negb (v =? 1)) eqn:Hv.
  - apply bind_Ret_inv in H1 as (y & s2 & _ & H1).
    exfalso; eapply cleanup_not_Ret; exact H1.
  - injection H1; intros <- _.
    apply bind_Ret_inv in H as (r & s2 & H2 & H).
    apply syscall_Ret in H2 as (Er & A2 & T2).
    destruct (negb (r =? 0)) eqn:Hr.
    { apply bind_Ret_inv in H as (y & s3 & _ & H).
      exfalso; eapply cleanup_not_Ret; exact H. }
    apply bind_Ret_inv in H as (w & s3 & H3 & H).
    apply syscall_Ret in H3 as (Ew & A3 & T3).
    destruct (w <? 0) eqn:Hw.
    { apply bind_Ret_inv in H as (y & s4 & _ & H).
      exfalso; eapply cleanup_not_Ret; exact H. }
    apply emit_Ret in H as [A4 T4].
    split; [destruct (v =? 0) eqn:E0; [left; apply Z.eqb_eq; exact E0|];
            destruct (v =? 1) eqn:E1; [right; apply Z.eqb_eq; exact E1|];
            discriminate|].
    split; [eapply agree_trans; [exact A2|]; eapply agree_trans; eassumption|].
    exists w; split; [apply Z.ltb_ge; exact Hw|].
    apply negb_false_iff, Z.eqb_eq in Hr.
    rewrite T4, T3, T2, Hr, <- !app_assoc; reflexivity.
Qed.

Lemma unexportGPIO_Ret : forall pin s u s',
  unexportGPIO os bd pin s = Ret u s' ->
  agree s s' /\
  exists w, 0 <= w /\
    trace s' = trace s ++ [EOpen FUnexport 0; EWrite FUnexport (DNum pin) w;
                           EClose FUnexport].
Proof.
  unfold unexportGPIO; intros pin s u s' H.
  apply bind_Ret_inv in H as (r & s2 & H2 & H).
  apply syscall_Ret in H2 as (Er & A2 & T2).
  destruct (negb (r =? 0)) eqn:Hr.
  { apply bind_Ret_inv in H as (y & s3 & _ & H).
    exfalso; eapply exit_not_Ret; exact H. }
  apply bind_Ret_inv in H as (w & s3 & H3 & H).
  apply syscall_Ret in H3 as (Ew & A3 & T3).
  destruct (w <? 0) eqn:Hw.
  { apply bind_Ret_inv in H as (y & s4 & _ & H).
    exfalso; eapply exit_not_Ret; exact H. }
  apply emit_Ret in H as [A4 T4].
  split; [eapply agree_trans; [exact A2|]; eapply agree_trans; eassumption|].
  exists w; split; [apply Z.ltb_ge; exact Hw|].
  apply negb_false_iff, Z.eqb_eq in Hr.
  rewrite T4, T3, T2, Hr, <- !app_assoc; reflexivity.
Qed.

End Frame.

Lemma count_unexport_app : forall t1 t2,
  count_unexport (t1 ++ t2) = (count_unexport t1 + count_unexport t2)%nat.
Proof.
  intros; unfold count_unexport; rewrite filter_app, length_app; reflexivity.
Qed.

(** Without a pending signal, a boundary does nothing: [cleanup] behaves
    as in the signal handler. *)
Lemma cleanup_no_signal : forall os A r s,
  pending s = None ->
  @cleanup os (tick os) A r s = @cleanup os (ret tt) A r s.
Proof.
  intros os A r [p e h pd b t] Hp; simpl in Hp; subst pd.
  unfold cleanup, release_if_exported, unexportGPIO, fopen_w, fprintf_w,
    fclose_w, syscall, report, exit, emit, modify, bind, get, ret, halt;
    simpl.
  repeat (match goal with
          | |- context [if ?c then _ else _] => destruct c
          end; simpl); reflexivity.
Qed.

(** What [cleanup(retval)] does, without signal boundaries. *)
Lemma cleanup_spec : forall os A r s,
  exists h ext,
    @cleanup os (ret tt) A r s =
      Halt h (mkSt (gpio_pin s) (isExported s) (handler_on s) (pending s)
                   (buf s) (trace s ++ ext)) /\
    count_unexport ext = (if release_cond s then 1 else 0)%nat /\
    value_writes ext = [] /\
    (release_cond s = false -> h = Exited r /\ ext = []) /\
    (release_cond s = true ->
     os (trace s) (SOpen FUnexport) = 0 ->
     0 <= os (trace s ++ [EOpen FUnexport 0])
             (SWrite FUnexport (DNum (gpio_pin s))) ->
     h = Exited r /\
     ext = [EOpen FUnexport 0;
            EWrite FUnexport (DNum (gpio_pin s))
              (os (trace s ++ [EOpen FUnexport 0])
                  (SWrite FUnexport (DNum (gpio_pin s))));
            EClose FUnexport]).
Proof.
  intros os A r [p e hd pd b t].
  unfold cleanup, release_cond, release_if_exported, unexportGPIO, fopen_w,
    fprintf_w, fclose_w, syscall, report, exit, emit, modify, bind, get,
    ret, halt, emit_st; simpl.
  repeat (match goal with
          | |- context [if ?c then _ else _] => destruct c eqn:?
          end; simpl).
  all: first [ exists (Exited r), []; rewrite app_nil_r; split; [reflexivity|]
             | eexists; eexists; split; [rewrite <- ?app_assoc; reflexivity|] ].
  all: repeat match goal with
         | H : negb _ = true |- _ => apply negb_true_iff in H
         | H : negb _ = false |- _ => apply negb_false_iff in H
         | H : (_ =? _) = true |- _ => apply Z.eqb_eq in H
         | H : (_ =? _) = false |- _ => apply Z.eqb_neq in H
         | H : (_ <? _) = true |- _ => apply Z.ltb_lt in H
         | H : (_ <? _) = false |- _ => apply Z.ltb_ge in H
         end.
  all: simpl; repeat split; intros; try reflexivity; try discriminate.
  all: try congruence.
  all: repeat match goal with H : ?f ?a ?b = 0 |- _ => rewrite H in * end.
  all: first [reflexivity | lia].
Qed.

Lemma bind_Ret_l : forall A B (m : M A) (k : A -> M B) s a s',
  m s = Ret a s' -> bind m k s = k a s'.
Proof. unfold bind; intros A B m k s a s' H; rewrite H; reflexivity. Qed.

Lemma bind_Halt_l : forall A B (m : M A) (k : A -> M B) s h s',
  m s = Halt h s' -> bind m k s = Halt h s'.
Proof. unfold bind; intros A B m k s h s' H; rewrite H; reflexivity. Qed.

Lemma bind_not_Ret : forall A B (m : M A) (k : A -> M B),
  (forall a s b s', k a s <> Ret b s') ->
  forall s b s', bind m k s <> Ret b s'.
Proof.
  unfold bind; intros A B m k Hk s b s' H.
  destruct (m s) as [a s1|h s1]; [eapply Hk; exact H | discriminate].
Qed.

Ltac not_ret :=
  repeat first [ apply exit_not_Ret | apply bind_not_Ret
               | unfold halt; discriminate | intros ? ? ? ? ].

(** The option loop returns only when every option is [-d], and then
    it has done nothing observable. *)
Lemma getopt_loop_Ret : forall bd opts d s d' s',
  getopt_loop bd opts d s = Ret d' s' -> s' = s.
Proof.
  intros bd opts; induction opts as [|o opts IH]; intros d s d' s' H.
  - injection H; intros <- _; reflexivity.
  - destruct o; simpl in H;
      try (exfalso; revert H; not_ret; fail).
    eapply IH; exact H.
Qed.

(** Without a pending signal, the positional arguments only set
    [gpio_pin]. *)
Lemma set_args_Ret : forall os pos s path s',
  pending s = None ->
  set_args (tick os) pos s = Ret path s' ->
  exists p, s' = set_pin_st p s.
Proof.
  intros os pos [pp e hd pd b t] path s' Hp H; simpl in Hp; subst pd.
  destruct pos as [|a [|c [|x rest]]]; simpl in H.
  - exists DEFAULT_PIN; injection H; intros <- _; reflexivity.
  - unfold set_pin_from in H; destruct (strtold_int a) as [p|];
      [exists p; injection H; intros <- _; reflexivity | discriminate].
  - unfold set_pin_from, strcpy_sun_path in H; destruct (strtold_int a) as [p|];
      [|discriminate].
    destruct (Nat.leb SUN_PATH_LEN (String.length c)); simpl in H;
      [discriminate|].
    exists p; injection H; intros <- _; reflexivity.
  - exfalso; revert H; not_ret.
Qed.

Lemma check_pin_invalid : forall os s,
  pending s = None -> valid_pin (gpio_pin s) = false ->
  check_pin (tick os) s = Halt (Exited EXIT_FAILURE) (emit_st EErr s).
Proof.
  intros os [p e hd pd b t] Hp Hv; simpl in Hp, Hv; subst pd.
  unfold check_pin, bind, get, ret, report, exit, emit, modify, halt; simpl.
  rewrite Hv; reflexivity.
Qed.

(** ** Where a SIGINT ends a run *)

(** Splits a program into its primitive steps. *)
Ltac split_prog bind_lemma :=
  repeat match goal with
  | |- _ (bind _ _) => apply bind_lemma; [|intro]
  | |- _ (if ?c then _ else _) => destruct c
  | |- _ (match ?x with _ => _ end) => destruct x
  end.

(** The run cut at the boundary where SIGINT arrives: the boundary stops
    the run there (as [Halt Killed]) instead of delivering the signal, so
    that the state it ends in is the program's state at that boundary. *)
Definition cut_at : M unit :=
  fun s =>
    match pending s with
    | Some O => Halt Killed (set_pending_st None s)
    | Some (S n) => Ret tt (set_pending_st (Some n) s)
    | None => Ret tt s
    end.

(** Delivering SIGINT in state [s], as [tick] does. *)
Definition deliver (os : list event -> sysop -> Z) (s : st) : res unit :=
  let s' := emit_st ESig s in
  if handler_on s then onExit os s' else Halt Killed s'.

Definition to_res {A} (r : res unit) : res A :=
  match r with
  | Ret _ s => Halt Unmodelled s
  | Halt h s => Halt h s
  end.

(** Continue a cut run by delivering the signal. *)
Definition resume (os : list event -> sysop -> Z) {A} (r : res A) : res A :=
  match r with
  | Halt Killed s => to_res (deliver os s)
  | _ => r
  end.

(** [m1] runs as [m2] does, resumed at its cut. *)
Definition cut_sim (os : list event -> sysop -> Z) {A} (m1 m2 : M A) : Prop :=
  forall s, m1 s = resume os (m2 s).

Section CutSim.

Variable os : list event -> sysop -> Z.

Lemma cs_bind : forall A B (m1 m2 : M A) (k1 k2 : A -> M B),
  cut_sim os m1 m2 -> (forall a, cut_sim os (k1 a) (k2 a)) ->
  cut_sim os (bind m1 k1) (bind m2 k2).
Proof.
  unfold cut_sim, bind; intros A B m1 m2 k1 k2 Hm Hk s; rewrite Hm.
  destruct (m2 s) as [a s'|[c| |] s']; simpl; try apply Hk; try reflexivity.
  destruct (deliver os s'); reflexivity.
Qed.

Lemma cs_same : forall A (m : M A),
  (forall s s', m s <> Halt Killed s') -> cut_sim os m m.
Proof.
  unfold cut_sim; intros A m H s.
  destruct (m s) as [a s'|[c| |] s'] eqn:E; try reflexivity.
  exfalso; exact (H s s' E).
Qed.

Lemma cs_tick : cut_sim os (tick os) cut_at.
Proof.
  unfold cut_sim, tick, cut_at, resume, deliver; intro s.
  destruct (pending s) as [[|n]|]; simpl; try reflexivity.
  destruct (handler_on s); [|reflexivity].
  destruct (onExit os _) eqn:E; [|reflexivity].
  exfalso; eapply cleanup_not_Ret; exact E.
Qed.

Lemma cs_ret : forall A (a : A), cut_sim os (ret a) (ret a).
Proof. intros; apply cs_same; discriminate. Qed.

Lemma cs_get : cut_sim os get get.
Proof. apply cs_same; discriminate. Qed.

Lemma cs_modify : forall f, cut_sim os (modify f) (modify f).
Proof. intros; apply cs_same; discriminate. Qed.

Lemma cs_emit : forall e, cut_sim os (emit e) (emit e).
Proof. intros; apply cs_same; discriminate. Qed.

Lemma cs_halt : forall A h, h <> Killed -> cut_sim os (@halt A h) (@halt A h).
Proof. intros A h Hh; apply cs_same; intros s s' E; injection E; congruence. Qed.

Lemma cs_syscall : forall o mk,
  cut_sim os (syscall os (tick os) o mk) (syscall os cut_at o mk).
Proof.
  intros; unfold syscall; apply cs_bind; [apply cs_tick|intros _].
  apply cs_same; discriminate.
Qed.

End CutSim.

Create HintDb cutdb.

#[export] Hint Resolve cs_tick cs_ret cs_get cs_modify cs_emit cs_syscall : cutdb.
#[export] Hint Extern 2 (cut_sim _ (halt _) (halt _)) =>
  apply cs_halt; discriminate : cutdb.

Ltac cut_prog :=
  unfold fopen_w, fprintf_w, fclose_w, report, print, usleep, exit,
    perror, set_pin, set_exported, install_handler, strcpy_sun_path;
  split_prog cs_bind; auto with cutdb.

Section CutSimProgram.

Variable os : list event -> sysop -> Z.
Variable rd : list event -> rreply.
Variable beyond : list ascii.

Lemma cs_unexportGPIO : forall p,
  cut_sim os (unexportGPIO os (tick os) p) (unexportGPIO os cut_at p).
Proof. intros; unfold unexportGPIO; cut_prog. Qed.

Lemma cs_cleanup : forall A r,
  cut_sim os (@cleanup os (tick os) A r) (@cleanup os cut_at A r).
Proof.
  intros; unfold cleanup, release_if_exported; cut_prog; apply cs_unexportGPIO.
Qed.

#[local] Hint Resolve cs_unexportGPIO cs_cleanup : cutdb.

Lemma cs_setValue : forall p v,
  cut_sim os (setValue os (tick os) p v) (setValue os cut_at p v).
Proof. intros; unfold setValue; cut_prog. Qed.

#[local] Hint Resolve cs_setValue : cutdb.

Lemma cs_main_init : forall opts pos,
  cut_sim os (main_init os (tick os) opts pos) (main_init os cut_at opts pos).
Proof.
  intros opts pos; unfold main_init.
  apply cs_bind.
  { generalize false; induction opts as [|o opts IH]; intro d;
      [apply cs_ret|].
    destruct o; simpl; [cut_prog..|apply IH|cut_prog]. }
  intros d; unfold set_args, set_pin_from, check_pin, daemonize, lirc_init,
    gpio_init, exportGPIO, setAsOutput; cut_prog.
Qed.

Lemma cs_read_lirc : cut_sim os (read_lirc rd (tick os)) (read_lirc rd cut_at).
Proof.
  unfold read_lirc; apply cs_bind; [apply cs_tick|intros _].
  apply cs_same; intros s s'; destruct (rd (trace s)); discriminate.
Qed.

#[local] Hint Resolve cs_read_lirc : cutdb.

Lemma cs_main_loop : forall n,
  cut_sim os (main_loop os rd beyond (tick os) n) (main_loop os rd beyond cut_at n).
Proof.
  induction n as [|n IH]; simpl; [apply cs_ret|].
  unfold flash; cut_prog.
Qed.

Lemma cs_main : forall opts pos fuel,
  cut_sim os (main os rd beyond (tick os) opts pos fuel)
             (main os rd beyond cut_at opts pos fuel).
Proof.
  intros; unfold main; apply cs_bind;
    [apply cs_main_init | intros; apply cs_main_loop].
Qed.

End CutSimProgram.


(** ** Order of the LIRC connection and the GPIO calls *)

(** A run only appends to the trace. *)
Definition grows {A} (m : M A) : Prop :=
  forall s, exists ext, trace (st_of (m s)) = trace s ++ ext.

Definition no_gpio (t : list event) : bool :=
  forallb (fun e => negb (is_gpio e)) t.

(** Events that can occur before [connect] is called: no GPIO call and no
    [connect]. *)
Definition pre_event (e : event) : bool :=
  match e with
  | EConnect _ _ => false
  | _ => negb (is_gpio e)
  end.

(** Before the connection: nothing exported, no GPIO call, no [connect]. *)
Definition before_conn (s : st) : Prop :=
  isExported s = 0 /\ forallb pre_event (trace s) = true.

(** After the connection: a successful [connect] precedes every GPIO call. *)
Definition after_conn (s : st) : Prop :=
  exists pre path post,
    trace s = pre ++ EConnect path 0 :: post /\ no_gpio pre = true.

Definition conn_final (s : st) : Prop :=
  no_gpio (trace s) = true \/ after_conn s.

(** [m] keeps [isExported] at 0 and only adds events satisfying [ok]; when
    it returns, it leaves no signal pending if none was. *)
Definition keeps (ok : event -> bool) {A} (m : M A) : Prop :=
  forall s, isExported s = 0 -> forallb ok (trace s) = true ->
  match m s with
  | Ret _ s' => isExported s' = 0 /\ forallb ok (trace s') = true /\
                (pending s = None -> pending s' = None)
  | Halt _ s' => isExported s' = 0 /\ forallb ok (trace s') = true
  end.

Lemma pre_no_gpio : forall t, forallb pre_event t = true -> no_gpio t = true.
Proof.
  induction t as [|e t IH]; simpl; [reflexivity|]; intro H.
  apply andb_true_iff in H as [H1 H2]; rewrite (IH H2), andb_true_r.
  destruct e; simpl in *; try discriminate; reflexivity.
Qed.

Lemma no_gpio_app : forall t1 t2,
  no_gpio (t1 ++ t2) = no_gpio t1 && no_gpio t2.
Proof. intros; unfold no_gpio; apply forallb_app. Qed.

Lemma grows_bind : forall A B (m : M A) (k : A -> M B),
  grows m -> (forall a, grows (k a)) -> grows (bind m k).
Proof.
  unfold grows, bind; intros A B m k Hm Hk s.
  destruct (Hm s) as [e1 E1].
  destruct (m s) as [a s1|h s1]; simpl in *; [|exists e1; exact E1].
  destruct (Hk a s1) as [e2 E2]; exists (e1 ++ e2).
  rewrite E2, E1, app_assoc; reflexivity.
Qed.

Lemma keeps_bind : forall ok A B (m : M A) (k : A -> M B),
  keeps ok m -> (forall a, keeps ok (k a)) -> keeps ok (bind m k).
Proof.
  unfold keeps, bind; intros ok A B m k Hm Hk s Hx Ht.
  specialize (Hm s Hx Ht); destruct (m s) as [a s1|h s1]; [|exact Hm].
  destruct Hm as (X1 & T1 & P1); specialize (Hk a s1 X1 T1).
  destruct (k a s1) as [b s2|h s2]; [|exact Hk].
  destruct Hk as (X2 & T2 & P2); auto.
Qed.

Section ConnPrims.

Variable os : list event -> sysop -> Z.
Variable ok : event -> bool.

Lemma tick_none : forall s, pending s = None -> tick os s = Ret tt s.
Proof. intros s Hp; unfold tick; rewrite Hp; reflexivity. Qed.

Lemma grows_tick : grows (tick os).
Proof.
  intro s; unfold tick.
  destruct (pending s) as [[|n]|]; [|exists []; rewrite app_nil_r; reflexivity..].
  destruct (handler_on s).
  - unfold onExit.
    destruct (cleanup_spec os unit 1 (emit_st ESig (set_pending_st None s)))
      as (h & ext & -> & _).
    exists (ESig :: ext); simpl; rewrite <- app_assoc; reflexivity.
  - exists [ESig]; reflexivity.
Qed.

Lemma keeps_tick : ok ESig = true -> keeps ok (tick os).
Proof.
  intros Hs s Hx Ht.
  destruct (tick os s) as [u s'|h s'] eqn:E.
  - pose proof (tick_Ret os s u s' E) as [(_ & X & _) T].
    split; [congruence|split; [congruence|]].
    intro Hp; rewrite tick_none in E by exact Hp.
    injection E; intros <- _; exact Hp.
  - unfold tick in E; destruct (pending s) as [[|n]|]; try discriminate.
    assert (T1 : forallb ok (trace s ++ [ESig]) = true)
      by (rewrite forallb_app, Ht; simpl; rewrite Hs; reflexivity).
    destruct (handler_on s).
    + unfold onExit in E.
      destruct (cleanup_spec os unit 1 (emit_st ESig (set_pending_st None s)))
        as (h' & ext & Ec & _ & _ & Hf & _).
      assert (Rc : release_cond (emit_st ESig (set_pending_st None s)) = false)
        by (unfold release_cond; simpl; rewrite Hx; reflexivity).
      destruct (Hf Rc) as [_ ->].
      rewrite Ec in E; injection E; intros <- _; simpl.
      rewrite app_nil_r; split; assumption.
    + injection E; intros <- _; simpl; split; assumption.
Qed.

Lemma grows_ret : forall A (a : A), grows (ret a).
Proof. intros A a s; exists []; rewrite app_nil_r; reflexivity. Qed.

Lemma grows_get : grows get.
Proof. intros s; exists []; rewrite app_nil_r; reflexivity. Qed.

Lemma grows_halt : forall A h, grows (@halt A h).
Proof. intros A h s; exists []; rewrite app_nil_r; reflexivity. Qed.

Lemma grows_emit : forall e, grows (emit e).
Proof. intros e s; exists [e]; reflexivity. Qed.

Lemma grows_modify : forall f,
  (forall s, trace (f s) = trace s) -> grows (modify f).
Proof. intros f Hf s; exists []; simpl; rewrite Hf, app_nil_r; reflexivity. Qed.

Lemma grows_syscall : forall o mk, grows (syscall os (tick os) o mk).
Proof.
  intros o mk; unfold syscall; apply grows_bind; [apply grows_tick|].
  intros _ s; eexists; reflexivity.
Qed.

Lemma keeps_ret : forall A (a : A), keeps ok (ret a).
Proof. intros A a s Hx Ht; simpl; auto. Qed.

Lemma keeps_get : keeps ok get.
Proof. intros s Hx Ht; simpl; auto. Qed.

Lemma keeps_halt : forall A h, keeps ok (@halt A h).
Proof. intros A h s Hx Ht; simpl; auto. Qed.

Lemma keeps_emit : forall e, ok e = true -> keeps ok (emit e).
Proof.
  intros e He s Hx Ht; simpl; split; [exact Hx|split; [|auto]].
  rewrite forallb_app, Ht; simpl; rewrite He; reflexivity.
Qed.

Lemma keeps_modify : forall f,
  (forall s, trace (f s) = trace s) ->
  (forall s, isExported (f s) = isExported s) ->
  (forall s, pending (f s) = pending s) -> keeps ok (modify f).
Proof.
  intros f Ht Hx Hp s H1 H2; simpl.
  rewrite Ht, Hx, Hp; auto.
Qed.

Lemma keeps_syscall : forall o mk,
  ok ESig = true -> (forall r, ok (mk r) = true) ->
  keeps ok (syscall os (tick os) o mk).
Proof.
  intros o mk Hs Hmk; unfold syscall; apply keeps_bind;
    [apply keeps_tick, Hs|].
  intros _ s Hx Ht; simpl; split; [exact Hx|split; [|auto]].
  rewrite forallb_app, Ht; simpl; rewrite Hmk; reflexivity.
Qed.

End ConnPrims.

Create HintDb conndb.
#[export] Hint Resolve grows_tick grows_ret grows_get grows_halt grows_emit
  grows_syscall keeps_ret keeps_get keeps_halt : conndb.
#[export] Hint Extern 2 (keeps _ (tick _)) =>
  apply keeps_tick; reflexivity : conndb.
#[export] Hint Extern 2 (grows (modify _)) =>
  apply grows_modify; reflexivity : conndb.
#[export] Hint Extern 2 (keeps _ (emit _)) =>
  apply keeps_emit; reflexivity : conndb.
#[export] Hint Extern 2 (keeps _ (modify _)) =>
  apply keeps_modify; reflexivity : conndb.
#[export] Hint Extern 2 (keeps _ (syscall _ _ _ _)) =>
  apply keeps_syscall; [reflexivity | intro; reflexivity] : conndb.

Ltac conn_prog bind_lemma :=
  unfold fopen_w, fprintf_w, fclose_w, report, print, usleep, exit,
    perror, set_pin, set_exported, install_handler, strcpy_sun_path;
  split_prog bind_lemma; auto with conndb.

Section ConnProgram.

Variable os : list event -> sysop -> Z.
Variable rd : list event -> rreply.
Variable beyond : list ascii.

Lemma grows_unexportGPIO : forall p, grows (unexportGPIO os (tick os) p).
Proof. intros; unfold unexportGPIO; conn_prog grows_bind. Qed.

Lemma grows_cleanup : forall A r, grows (@cleanup os (tick os) A r).
Proof.
  intros; unfold cleanup, release_if_exported; conn_prog grows_bind;
    apply grows_unexportGPIO.
Qed.

#[local] Hint Resolve grows_unexportGPIO grows_cleanup : conndb.

Lemma grows_gpio_init : grows (gpio_init os (tick os)).
Proof.
  unfold gpio_init, exportGPIO, setAsOutput; conn_prog grows_bind.
Qed.

Lemma grows_read_lirc : grows (read_lirc rd (tick os)).
Proof.
  unfold read_lirc; apply grows_bind; [apply grows_tick|]; intros _ s.
  destruct (rd (trace s)); eexists; reflexivity.
Qed.

#[local] Hint Resolve grows_read_lirc : conndb.

Lemma grows_main_loop : forall n, grows (main_loop os rd beyond (tick os) n).
Proof.
  induction n as [|n IH]; simpl; [apply grows_ret|].
  unfold flash, setValue; conn_prog grows_bind.
Qed.

(** The steps of [main] before [lirc_init]. *)
Lemma keeps_pre : forall opts pos d,
  keeps pre_event (getopt_loop (tick os) opts false) /\
  keeps pre_event (set_args (tick os) pos) /\
  keeps pre_event (check_pin (tick os)) /\
  keeps pre_event (daemonize os (tick os) d) /\
  keeps pre_event (install_handler (tick os)).
Proof.
  intros opts pos d; split; [|repeat split].
  - generalize false; induction opts as [|o opts IH]; intro b;
      [apply keeps_ret|].
    destruct o; simpl; [conn_prog keeps_bind..|apply IH|conn_prog keeps_bind].
  - unfold set_args, set_pin_from; conn_prog keeps_bind.
  - unfold check_pin; conn_prog keeps_bind.
  - unfold daemonize; conn_prog keeps_bind.
  - conn_prog keeps_bind.
Qed.

(** [lirc_init] makes no GPIO call; when it returns, its last event is
    the successful [connect]. *)
Lemma lirc_init_conn : forall path s, before_conn s ->
  match lirc_init os (tick os) path s with
  | Ret _ s' => after_conn s'
  | Halt _ s' => isExported s' = 0 /\ no_gpio (trace s') = true
  end.
Proof.
  intros path s [Hx Ht].
  assert (K : keeps (fun e => negb (is_gpio e)) (lirc_init os (tick os) path))
    by (unfold lirc_init; conn_prog keeps_bind).
  specialize (K s Hx (pre_no_gpio _ Ht)).
  destruct (lirc_init os (tick os) path s) as [u s'|h s'] eqn:E; [|exact K].
  unfold lirc_init in E.
  apply bind_Ret_inv in E as (r & s1 & E1 & E2).
  apply (syscall_Ret os _ (tick_Ret os)) in E1 as (_ & _ & T1).
  destruct (negb (r =? 0)); [exfalso; revert E2; not_ret|].
  apply bind_Ret_inv in E2 as (c & s2 & E2 & E3).
  apply (syscall_Ret os _ (tick_Ret os)) in E2 as (_ & _ & T2).
  destruct (negb (c =? 0)) eqn:Ec; [exfalso; revert E3; not_ret|].
  apply negb_false_iff, Z.eqb_eq in Ec; subst c.
  injection E3; intros <- _.
  exists (trace s ++ [ESocket r]), path, []; split.
  - rewrite T2, T1, <- app_assoc; reflexivity.
  - rewrite no_gpio_app, (pre_no_gpio _ Ht); reflexivity.
Qed.

(** Without a pending signal, a failed [connect] ends the process with
    its error code, a failed [socket] with [errno] as [perror] left it. *)
Lemma lirc_init_nosig : forall path s, pending s = None ->
  os (trace s) SSocket <> 0 /\
  lirc_init os (tick os) path s =
    Halt (Exited (os (trace s ++ [ESocket (os (trace s) SSocket)])
                     (SPerror (os (trace s) SSocket))))
         (emit_st EErr (emit_st (ESocket (os (trace s) SSocket)) s)) \/
  os (trace s) SSocket = 0 /\
  let t := trace s ++ [ESocket 0] in
  (os t (SConnect path) = 0 /\
   lirc_init os (tick os) path s =
     Ret tt (emit_st (EConnect path 0) (emit_st (ESocket 0) s)) \/
   os t (SConnect path) <> 0 /\
   lirc_init os (tick os) path s =
     Halt (Exited (os t (SConnect path)))
          (emit_st EErr (emit_st (EConnect path (os t (SConnect path)))
                          (emit_st (ESocket 0) s)))).
Proof.
  intros path [p e hd pd b t] Hp; simpl in Hp; subst pd.
  unfold lirc_init, syscall, report, exit, emit, modify, bind, halt, ret,
    tick, emit_st; simpl.
  destruct (os t SSocket =? 0) eqn:Es; simpl.
  - apply Z.eqb_eq in Es; right; split; [exact Es|]; rewrite Es.
    destruct (os (t ++ [ESocket 0]) (SConnect path) =? 0) eqn:Ec; simpl.
    + apply Z.eqb_eq in Ec; left; rewrite Ec; split; reflexivity.
    + apply Z.eqb_neq in Ec; right; split; [exact Ec|reflexivity].
  - apply Z.eqb_neq in Es; left; split; [exact Es|reflexivity].
Qed.

Lemma after_conn_grows : forall s s' ext,
  after_conn s -> trace s' = trace s ++ ext -> after_conn s'.
Proof.
  intros s s' ext (pre & path & post & T & Hp) T'.
  exists pre, path, (post ++ ext); split; [|exact Hp].
  rewrite T', T, <- app_assoc; reflexivity.
Qed.

(** A run of [main] ends without any GPIO call, or with a successful
    [connect] before its first GPIO call. *)
Lemma main_conn_final : forall opts pos fuel buf0 sig,
  conn_final (st_of (run_main os rd beyond opts pos fuel buf0 sig)).
Proof.
  intros opts pos fuel buf0 sig.
  unfold run_main, main, main_init, bind.
  set (s0 := init_st buf0 sig).
  assert (X0 : isExported s0 = 0) by reflexivity.
  assert (T0 : forallb pre_event (trace s0) = true) by reflexivity.
  pose proof (proj1 (keeps_pre opts pos false) s0 X0 T0) as K1.
  destruct (getopt_loop _ opts false s0) as [d s1|h s1];
    [destruct K1 as (X1 & T1 & _)|left; apply pre_no_gpio, K1].
  destruct (keeps_pre opts pos d) as (_ & K2 & K3 & K4 & K5).
  specialize (K2 s1 X1 T1).
  destruct (set_args _ pos s1) as [path s2|h s2];
    [destruct K2 as (X2 & T2 & _)|left; apply pre_no_gpio, K2].
  specialize (K3 s2 X2 T2).
  destruct (check_pin _ s2) as [u3 s3|h s3];
    [destruct K3 as (X3 & T3 & _)|left; apply pre_no_gpio, K3].
  specialize (K4 s3 X3 T3).
  destruct (daemonize _ _ d s3) as [u4 s4|h s4];
    [destruct K4 as (X4 & T4 & _)|left; apply pre_no_gpio, K4].
  specialize (K5 s4 X4 T4).
  destruct (install_handler _ s4) as [u5 s5|h s5];
    [destruct K5 as (X5 & T5 & _)|left; apply pre_no_gpio, K5].
  pose proof (lirc_init_conn path s5 (conj X5 T5)) as K6.
  destruct (lirc_init _ _ path s5) as [u6 s6|h s6]; [|left; apply K6].
  destruct (grows_gpio_init s6) as [e7 T7].
  destruct (gpio_init _ _ s6) as [u7 s7|h s7]; simpl in T7;
    [|right; exact (after_conn_grows _ _ _ K6 T7)].
  destruct (grows_main_loop fuel s7) as [e8 T8].
  right; eapply after_conn_grows; [|exact T8].
  exact (after_conn_grows _ _ _ K6 T7).
Qed.

(** When [connect] fails, [main] ends with no GPIO call and nothing
    exported; without a signal its exit code is the [connect] result. *)
Lemma main_connect_fails : forall opts pos fuel buf0 sig,
  (forall t p, os t (SConnect p) <> 0) ->
  exists h s,
    run_main os rd beyond opts pos fuel buf0 sig = Halt h s /\
    isExported s = 0 /\ no_gpio (trace s) = true /\
    (sig = None -> forall p c, In (EConnect p c) (trace s) -> h = Exited c).
Proof.
  intros opts pos fuel buf0 sig Hc.
  unfold run_main, main, main_init, bind.
  set (s0 := init_st buf0 sig).
  assert (X0 : isExported s0 = 0) by reflexivity.
  assert (T0 : forallb pre_event (trace s0) = true) by reflexivity.
  assert (P0 : sig = None -> pending s0 = None) by (intro; assumption).
  (* before [lirc_init]: the halting cases *)
  assert (Fin : forall h s, isExported s = 0 -> forallb pre_event (trace s) = true ->
    exists h' s', @Halt unit h s = Halt h' s' /\ isExported s' = 0 /\
      no_gpio (trace s') = true /\
      (sig = None -> forall p c, In (EConnect p c) (trace s') -> h' = Exited c)).
  { intros h s X T; exists h, s; split; [reflexivity|split; [exact X|]].
    split; [apply pre_no_gpio, T|].
    intros _ p c Hin; apply forallb_forall with (x := EConnect p c) in T;
      [discriminate|exact Hin]. }
  pose proof (proj1 (keeps_pre opts pos false) s0 X0 T0) as K1.
  destruct (getopt_loop _ opts false s0) as [d s1|h s1];
    [destruct K1 as (X1 & T1 & P1)|apply Fin; apply K1].
  destruct (keeps_pre opts pos d) as (_ & K2 & K3 & K4 & K5).
  specialize (K2 s1 X1 T1).
  destruct (set_args _ pos s1) as [path s2|h s2];
    [destruct K2 as (X2 & T2 & P2)|apply Fin; apply K2].
  specialize (K3 s2 X2 T2).
  destruct (check_pin _ s2) as [u3 s3|h s3];
    [destruct K3 as (X3 & T3 & P3)|apply Fin; apply K3].
  specialize (K4 s3 X3 T3).
  destruct (daemonize _ _ d s3) as [u4 s4|h s4];
    [destruct K4 as (X4 & T4 & P4)|apply Fin; apply K4].
  specialize (K5 s4 X4 T4).
  destruct (install_handler _ s4) as [u5 s5|h s5];
    [destruct K5 as (X5 & T5 & P5)|apply Fin; apply K5].
  pose proof (lirc_init_conn path s5 (conj X5 T5)) as K6.
  destruct (lirc_init _ _ path s5) as [u6 s6|h s6] eqn:E6.
  - (* a returning [lirc_init] made a successful [connect] *)
    exfalso; unfold lirc_init in E6.
    apply bind_Ret_inv in E6 as (r & s' & _ & E6).
    destruct (negb (r =? 0)); [revert E6; not_ret|].
    apply bind_Ret_inv in E6 as (c & s'' & E6 & E7).
    apply (syscall_Ret os _ (tick_Ret os)) in E6 as (-> & _).
    destruct (negb (os _ _ =? 0)) eqn:Ec; [revert E7; not_ret|].
    apply negb_false_iff, Z.eqb_eq in Ec; exact (Hc _ _ Ec).
  - exists h, s6; split; [reflexivity|]; destruct K6 as [X6 G6].
    split; [exact X6|split; [exact G6|]].
    intros Hs p c Hin.
    assert (P : pending s5 = None) by (apply P5, P4, P3, P2, P1, P0, Hs).
    destruct (lirc_init_nosig path s5 P) as [(_ & E)|(Es & [(Ec & _)|(_ & E)])];
      [| exfalso; exact (Hc _ _ Ec) |];
      rewrite E in E6; injection E6; intros <- <-; simpl in Hin;
      repeat rewrite <- app_assoc in Hin; simpl in Hin;
      apply in_app_or in Hin as [Hin|Hin];
      try (apply forallb_forall with (x := EConnect p c) in T5;
           [discriminate|exact Hin]);
      simpl in Hin; repeat destruct Hin as [Hin|Hin]; try discriminate;
      try contradiction; injection Hin; intros <- <-; reflexivity.
Qed.

End ConnProgram.

(** ** Further properties of the program *)

(** *** Reading the pin argument *)

Lemma is_digit_not_space : forall c, is_digit c = true -> is_space c = false.
Proof.
  intros c; unfold is_digit, is_space.
  destruct (Nat.leb_spec 48 (nat_of_ascii c)), (Nat.leb_spec (nat_of_ascii c) 57);
    try discriminate; intros _.
  destruct (Nat.eqb_spec (nat_of_ascii c) 32); [lia|].
  destruct (Nat.leb_spec 9 (nat_of_ascii c)), (Nat.leb_spec (nat_of_ascii c) 13);
    simpl; try reflexivity; lia.
Qed.

Lemma is_digit_not_eq : forall c d, is_digit c = true -> is_digit d = false ->
  Ascii.eqb c d = false.
Proof.
  intros c d Hc Hd; destruct (Ascii.eqb_spec c d) as [->|]; [congruence|reflexivity].
Qed.

Lemma skip_space_app : forall ws l,
  forallb is_space ws = true -> skip_space (ws ++ l) = skip_space l.
Proof.
  induction ws as [|w ws IH]; simpl; [reflexivity|]; intros l H.
  apply andb_true_iff in H as [H1 H2]; rewrite H1; apply IH, H2.
Qed.

Lemma span_digits_app : forall ds rest,
  forallb is_digit ds = true ->
  match rest with [] => True | c :: _ => is_digit c = false end ->
  span_digits (ds ++ rest) = (ds, rest).
Proof.
  induction ds as [|d ds IH]; simpl; intros rest Hd Hr.
  - destruct rest as [|c r]; [reflexivity|]; simpl; rewrite Hr; reflexivity.
  - apply andb_true_iff in Hd as [H1 H2]; rewrite H1, (IH rest H2 Hr);
      reflexivity.
Qed.

Lemma digits_value_nonneg : forall ds, forallb is_digit ds = true ->
  0 <= digits_value ds.
Proof.
  intros ds Hd; unfold digits_value.
  assert (G : forall z, 0 <= z ->
    0 <= fold_left (fun acc c => acc * 10 + (Z.of_nat (nat_of_ascii c) - 48))
           ds z).
  { revert Hd; induction ds as [|d ds IH]; simpl; intros Hd z Hz; [lia|].
    apply andb_true_iff in Hd as [H1 H2]; apply IH; [exact H2|].
    unfold is_digit in H1.
    destruct (Nat.leb_spec 48 (nat_of_ascii d)); [|discriminate]; lia. }
  apply G; lia.
Qed.

(** *** Runs without SIGINT *)

(** [s] with the events [l] appended to its trace. *)
Definition ext_st (l : list event) (s : st) : st :=
  mkSt (gpio_pin s) (isExported s) (handler_on s) (pending s) (buf s)
       (trace s ++ l).

Lemma bind_congr : forall A B (m m' : M A) (k : A -> M B) s s',
  m s = m' s' -> bind m k s = bind m' k s'.
Proof. unfold bind; intros A B m m' k s s' H; rewrite H; reflexivity. Qed.

(** Once the options, the positional arguments and the pin check have
    passed, [main] goes on with [daemonize] from the state they left. *)
Lemma run_main_after_check : forall os rd beyond opts pos fuel buf0 d path p,
  getopt_loop (tick os) opts false (init_st buf0 None) =
    Ret d (init_st buf0 None) ->
  set_args (tick os) pos (init_st buf0 None) =
    Ret path (set_pin_st p (init_st buf0 None)) ->
  valid_pin p = true ->
  run_main os rd beyond opts pos fuel buf0 None =
    bind (daemonize os (tick os) d ;; install_handler (tick os) ;;
          lirc_init os (tick os) path ;; gpio_init os (tick os))
         (fun _ => main_loop os rd beyond (tick os) fuel)
         (set_pin_st p (init_st buf0 None)).
Proof.
  intros os rd beyond opts pos fuel buf0 d path p Hg Ha Hv.
  unfold run_main, main; apply bind_congr; unfold main_init.
  rewrite (bind_Ret_l _ _ _ _ _ _ _ Hg), (bind_Ret_l _ _ _ _ _ _ _ Ha).
  assert (Hc : check_pin (tick os) (set_pin_st p (init_st buf0 None)) =
               Ret tt (set_pin_st p (init_st buf0 None)))
    by (unfold check_pin, bind, get, ret, tick; simpl; rewrite Hv; reflexivity).
  rewrite (bind_Ret_l _ _ _ _ _ _ _ Hc); reflexivity.
Qed.

(** Events the event loop may produce. *)
Definition loop_event (e : event) : bool :=
  match e with
  | EOpen f _ | EWrite f _ _ | EClose f =>
      match f with FValue _ | FUnexport => true | _ => false end
  | EErr | ESleep _ | ERead _ | ESeek | ESig => true
  | EOut | ESocket _ | EConnect _ _ | EFork _ | EHandler | ESetExported => false
  end.

(** [m] only appends events satisfying [ok]. *)
Definition appends (ok : event -> bool) {A} (m : M A) : Prop :=
  forall s, exists ext,
    trace (st_of (m s)) = trace s ++ ext /\ forallb ok ext = true.

Section Appends.

Variable ok : event -> bool.

Lemma appends_bind : forall A B (m : M A) (k : A -> M B),
  appends ok m -> (forall a, appends ok (k a)) -> appends ok (bind m k).
Proof.
  unfold appends, bind; intros A B m k Hm Hk s.
  destruct (Hm s) as (e1 & E1 & O1).
  destruct (m s) as [a s1|h s1]; simpl in *; [|exists e1; auto].
  destruct (Hk a s1) as (e2 & E2 & O2); exists (e1 ++ e2).
  rewrite E2, E1, app_assoc, forallb_app, O1, O2; auto.
Qed.

Lemma appends_ret : forall A (a : A), appends ok (ret a).
Proof. intros A a s; exists []; rewrite app_nil_r; auto. Qed.

Lemma appends_get : appends ok get.
Proof. intros s; exists []; rewrite app_nil_r; auto. Qed.

Lemma appends_halt : forall A h, appends ok (@halt A h).
Proof. intros A h s; exists []; rewrite app_nil_r; auto. Qed.

Lemma appends_emit : forall e, ok e = true -> appends ok (emit e).
Proof. intros e He s; exists [e]; simpl; rewrite He; auto. Qed.

Lemma appends_modify : forall f,
  (forall s, trace (f s) = trace s) -> appends ok (modify f).
Proof. intros f Hf s; exists []; simpl; rewrite Hf, app_nil_r; auto. Qed.

Lemma appends_syscall : forall os bd o mk,
  appends ok bd -> (forall r, ok (mk r) = true) ->
  appends ok (syscall os bd o mk).
Proof.
  intros os bd o mk Hb Hmk; unfold syscall; apply appends_bind; [exact Hb|].
  intros _ s; exists [mk (os (trace s) o)]; simpl; rewrite Hmk; auto.
Qed.

End Appends.

Create HintDb appdb.
#[export] Hint Resolve appends_ret appends_get appends_halt : appdb.
#[export] Hint Extern 2 (appends _ (emit _)) =>
  apply appends_emit; reflexivity : appdb.
#[export] Hint Extern 2 (appends _ (modify _)) =>
  apply appends_modify; reflexivity : appdb.
#[export] Hint Extern 2 (appends _ (syscall _ _ _ _)) =>
  apply appends_syscall; [auto with appdb | intro; reflexivity] : appdb.

Ltac app_prog :=
  unfold fopen_w, fprintf_w, fclose_w, report, print, usleep, exit,
    perror, set_pin, set_exported, install_handler, strcpy_sun_path;
  split_prog appends_bind; auto with appdb.

Lemma appends_cleanup_loop : forall os bd A r,
  appends loop_event bd -> appends loop_event (@cleanup os bd A r).
Proof.
  intros os bd A r Hb; unfold cleanup, release_if_exported, unexportGPIO;
    app_prog.
Qed.

Lemma appends_tick_loop : forall os, appends loop_event (tick os).
Proof.
  intros os s; unfold tick.
  destruct (pending s) as [[|n]|];
    [|exists []; rewrite app_nil_r; auto..].
  destruct (handler_on s).
  - unfold onExit.
    destruct (appends_cleanup_loop os (ret tt) unit 1 (appends_ret loop_event unit tt)
                (emit_st ESig (set_pending_st None s))) as (ext & E & O).
    exists (ESig :: ext); simpl in *; rewrite E, <- app_assoc; auto.
  - exists [ESig]; auto.
Qed.

#[export] Hint Resolve appends_tick_loop : appdb.

Lemma appends_read_lirc_loop : forall os rd,
  appends loop_event (read_lirc rd (tick os)).
Proof.
  intros os rd; unfold read_lirc; apply appends_bind; [apply appends_tick_loop|].
  intros _ s; exists [ERead (rd (trace s))].
  destruct (rd (trace s)); simpl; auto.
Qed.

#[export] Hint Resolve appends_read_lirc_loop : appdb.
#[export] Hint Extern 2 (appends _ (cleanup _ _ _)) =>
  apply appends_cleanup_loop; auto with appdb : appdb.

(** *** Value writes and pulses without SIGINT; boundaries of a pulse *)

(** [setValue(pin, v)] for [v] in {0, 1} when no SIGINT is due. *)
Lemma setValue_nosig : forall os pin v s,
  pending s = None -> (v = 0 \/ v = 1) ->
  setValue os (tick os) pin v s =
    let o := os (trace s) (SOpen (FValue pin)) in
    if negb (o =? 0)
    then cleanup os (tick os) o (ext_st [EOpen (FValue pin) o; EErr] s) else
    let w := os (trace s ++ [EOpen (FValue pin) 0]) (SWrite (FValue pin) (DNum v)) in
    if w <? 0
    then cleanup os (tick os) w
           (ext_st [EOpen (FValue pin) 0; EWrite (FValue pin) (DNum v) w; EErr] s)
    else Ret tt (ext_st [EOpen (FValue pin) 0; EWrite (FValue pin) (DNum v) w;
                         EClose (FValue pin)] s).
Proof.
  intros os pin v [p e hd pd b t] Hp Hv; simpl in Hp; subst pd.
  destruct Hv as [-> | ->];
  unfold setValue, fopen_w, fprintf_w, fclose_w, report, syscall, emit, modify,
    bind, ret, tick; simpl;
  (destruct (Z.eqb_spec (os t (SOpen (FValue pin))) 0) as [Eo|Eo];
   [rewrite Eo; simpl; destruct (_ <? 0) | simpl]);
  unfold ext_st, emit_st; simpl; rewrite <- ?app_assoc; reflexivity.
Qed.

(** [m], when it returns, passed exactly [n] instruction boundaries: a
    SIGINT due within them was delivered and [m] did not return. *)
Definition uses (n : nat) {A} (m : M A) : Prop :=
  forall s a s', m s = Ret a s' ->
  match pending s with
  | None => pending s' = None
  | Some k => (n <= k)%nat /\ pending s' = Some (k - n)%nat
  end.

Lemma uses_bind : forall n1 n2 A B (m : M A) (k : A -> M B),
  uses n1 m -> (forall a, uses n2 (k a)) -> uses (n1 + n2) (bind m k).
Proof.
  intros n1 n2 A B m k H1 H2 s b s'' H.
  apply bind_Ret_inv in H as (a & s' & E1 & E2).
  apply H1 in E1; apply H2 in E2.
  destruct (pending s) as [p|]; [|rewrite E1 in E2; exact E2].
  destruct E1 as [L1 P1]; rewrite P1 in E2; destruct E2 as [L2 P2].
  split; [lia | rewrite P2; f_equal; lia].
Qed.

Lemma uses_never : forall n A (m : M A),
  (forall s a s', m s <> Ret a s') -> uses n m.
Proof. intros n A m H s a s' E; exfalso; exact (H s a s' E). Qed.

Lemma uses_ret : forall A (a : A), uses 0 (ret a).
Proof.
  intros A a s b s' H; injection H; intros <- _.
  destruct (pending s); [split; [lia | f_equal; lia] | reflexivity].
Qed.

Lemma uses_step : forall A (f : st -> A * st),
  (forall s, pending (snd (f s)) = pending s) ->
  uses 0 (fun s => Ret (fst (f s)) (snd (f s))).
Proof.
  intros A f Hf s a s' H; injection H; intros <- _; rewrite Hf.
  destruct (pending s); [split; [lia | f_equal; lia] | reflexivity].
Qed.

Lemma uses_tick : forall os, uses 1 (tick os).
Proof.
  intros os s u s' H; unfold tick in H.
  destruct (pending s) as [[|k]|] eqn:E.
  - destruct (handler_on s); [|discriminate].
    exfalso; eapply cleanup_not_Ret; exact H.
  - injection H; intros <- _; simpl; split; [lia | f_equal; lia].
  - injection H; intros <- _; exact E.
Qed.

Section Uses.
Variable os : list event -> sysop -> Z.

Lemma uses_syscall : forall o mk, uses 1 (syscall os (tick os) o mk).
Proof.
  intros o mk; unfold syscall; rewrite <- (Nat.add_0_r 1).
  apply uses_bind; [apply uses_tick|intros _].
  exact (uses_step _ (fun s => (os (trace s) o, emit_st (mk (os (trace s) o)) s))
           (fun s => eq_refl)).
Qed.

Lemma uses_emit : forall e, uses 1 (tick os ;; emit e).
Proof.
  intro e; rewrite <- (Nat.add_0_r 1); apply uses_bind; [apply uses_tick|intros _].
  exact (uses_step _ (fun s => (tt, emit_st e s)) (fun s => eq_refl)).
Qed.

Lemma uses_cleanup : forall n A r, uses n (@cleanup os (tick os) A r).
Proof. intros; apply uses_never; intros; apply cleanup_not_Ret. Qed.

Lemma uses_report_cleanup : forall n A r,
  uses n (report (tick os) ;; @cleanup os (tick os) A r).
Proof.
  intros; apply uses_never; apply bind_not_Ret; intros; apply cleanup_not_Ret.
Qed.

Lemma uses_setValue : forall pin v, uses 3 (setValue os (tick os) pin v).
Proof.
  intros pin v; unfold setValue.
  apply (uses_bind 0 3).
  { destruct (_ && _); [apply uses_report_cleanup | apply uses_ret]. }
  intros _; apply (uses_bind 1 2); [apply uses_syscall|intro r].
  destruct (negb (r =? 0)); [apply uses_report_cleanup|].
  apply (uses_bind 1 1); [apply uses_syscall|intro w].
  destruct (w <? 0); [apply uses_report_cleanup | apply uses_emit].
Qed.

Lemma uses_flash : forall pin, uses 7 (flash os (tick os) pin).
Proof.
  intro pin; unfold flash.
  apply (uses_bind 3 4); [apply uses_setValue|intros _].
  apply (uses_bind 1 3); [apply uses_emit | intros _; apply uses_setValue].
Qed.

End Uses.

(** [flash(pin)] when no SIGINT is due: each of the four value-file steps
    either succeeds or reports and calls [cleanup] with its code. *)
Lemma flash_nosig : forall os pin s,
  pending s = None ->
  flash os (tick os) pin s =
    let o1 := os (trace s) (SOpen (FValue pin)) in
    if negb (o1 =? 0)
    then cleanup os (tick os) o1 (ext_st [EOpen (FValue pin) o1; EErr] s) else
    let w1 := os (trace s ++ [EOpen (FValue pin) 0])
                 (SWrite (FValue pin) (DNum 1)) in
    if w1 <? 0
    then cleanup os (tick os) w1
           (ext_st [EOpen (FValue pin) 0; EWrite (FValue pin) (DNum 1) w1; EErr] s)
    else
    let p1 := [EOpen (FValue pin) 0; EWrite (FValue pin) (DNum 1) w1;
               EClose (FValue pin); ESleep 100000] in
    let o2 := os (trace s ++ p1) (SOpen (FValue pin)) in
    if negb (o2 =? 0)
    then cleanup os (tick os) o2 (ext_st (p1 ++ [EOpen (FValue pin) o2; EErr]) s)
    else
    let w2 := os (trace s ++ p1 ++ [EOpen (FValue pin) 0])
                 (SWrite (FValue pin) (DNum 0)) in
    if w2 <? 0
    then cleanup os (tick os) w2
           (ext_st (p1 ++ [EOpen (FValue pin) 0; EWrite (FValue pin) (DNum 0) w2;
                           EErr]) s)
    else Ret tt (ext_st (p1 ++ [EOpen (FValue pin) 0;
                                EWrite (FValue pin) (DNum 0) w2;
                                EClose (FValue pin)]) s).
Proof.
  intros os pin [p e hd pd b t] Hp; simpl in Hp; subst pd.
  unfold flash, bind at 1.
  rewrite (setValue_nosig os pin 1 (mkSt p e hd None b t) eq_refl (or_intror eq_refl)); cbv zeta.
  simpl trace.
  destruct (negb (_ =? 0)) eqn:E1.
  { destruct (cleanup _ _ _ _) eqn:C; [exfalso; eapply cleanup_not_Ret; exact C
                                      | reflexivity]. }
  destruct (_ <? 0) eqn:E2.
  { destruct (cleanup _ _ _ _) eqn:C; [exfalso; eapply cleanup_not_Ret; exact C
                                      | reflexivity]. }
  match goal with |- bind _ _ ?s1 = _ =>
    rewrite (bind_Ret_l _ _ _ _ s1 tt (emit_st (ESleep 100000) s1) eq_refl);
    rewrite (setValue_nosig os pin 0 (emit_st (ESleep 100000) s1) eq_refl
               (or_introl eq_refl)) end; cbv zeta.
  unfold ext_st, emit_st; simpl; rewrite <- !app_assoc; reflexivity.
Qed.

(** ** Claims *)

(** C5 (corrected).  A pulse that returns made exactly two value writes,
    1 then 0, with [usleep(100000)] between them and no other GPIO call;
    it returns only if no SIGINT was due at any of its 7 instruction
    boundaries (a pending countdown [k] is at least 7).  When no SIGINT is
    due, the pulse is exactly: open, write 1, close, sleep, open, write 0,
    close; the first of the four open/write steps that fails reports on
    stderr and calls [cleanup] with that step's code, so the pulse does not
    return. *)
Theorem flash_completed_trace : forall os pin s,
  (forall s', flash os (tick os) pin s = Ret tt s' ->
   agree s s' /\
   (forall k, pending s = Some k -> (7 <= k)%nat) /\
   exists w1 w2, 0 <= w1 /\ 0 <= w2 /\
     trace s' = trace s ++
       [EOpen (FValue pin) 0; EWrite (FValue pin) (DNum 1) w1;
        EClose (FValue pin); ESleep 100000;
        EOpen (FValue pin) 0; EWrite (FValue pin) (DNum 0) w2;
        EClose (FValue pin)]) /\
  (pending s = None ->
   flash os (tick os) pin s =
     let o1 := os (trace s) (SOpen (FValue pin)) in
     if negb (o1 =? 0)
     then cleanup os (tick os) o1 (ext_st [EOpen (FValue pin) o1; EErr] s) else
     let w1 := os (trace s ++ [EOpen (FValue pin) 0])
                  (SWrite (FValue pin) (DNum 1)) in
     if w1 <? 0
     then cleanup os (tick os) w1
            (ext_st [EOpen (FValue pin) 0; EWrite (FValue pin) (DNum 1) w1;
                     EErr] s)
     else
     let p1 := [EOpen (FValue pin) 0; EWrite (FValue pin) (DNum 1) w1;
                EClose (FValue pin); ESleep 100000] in
     let o2 := os (trace s ++ p1) (SOpen (FValue pin)) in
     if negb (o2 =? 0)
     then cleanup os (tick os) o2 (ext_st (p1 ++ [EOpen (FValue pin) o2; EErr]) s)
     else
     let w2 := os (trace s ++ p1 ++ [EOpen (FValue pin) 0])
                  (SWrite (FValue pin) (DNum 0)) in
     if w2 <? 0
     then cleanup os (tick os) w2
            (ext_st (p1 ++ [EOpen (FValue pin) 0;
                            EWrite (FValue pin) (DNum 0) w2; EErr]) s)
     else Ret tt (ext_st (p1 ++ [EOpen (FValue pin) 0;
                                 EWrite (FValue pin) (DNum 0) w2;
                                 EClose (FValue pin)]) s)).
Proof.
  intros os pin s; split; [|apply flash_nosig].
  intros s' H.
  pose proof (uses_flash os pin s tt s' H) as U.
  unfold flash in H.
  pose proof (tick_Ret os) as Ht.
  apply bind_Ret_inv in H as (u1 & s1 & H1 & H).
  apply bind_Ret_inv in H as (u2 & s2 & H2 & H3).
  apply (setValue_Ret os _ Ht) in H1 as (_ & A1 & w1 & W1 & T1).
  apply (emit_Ret _ Ht) in H2 as [A2 T2].
  apply (setValue_Ret os _ Ht) in H3 as (_ & A3 & w2 & W2 & T3).
  split; [eapply agree_trans; [exact A1|]; eapply agree_trans; eassumption|].
  split; [intros k Hk; rewrite Hk in U; exact (proj1 U)|].
  exists w1, w2; split; [exact W1|]; split; [exact W2|].
  rewrite T3, T2, T1, <- !app_assoc; reflexivity.
Qed.

Lemma flash_completed_trace_witness :
  (flash os_ok (tick os_ok) 4 loop_st
     = Ret tt (st_of (flash os_ok (tick os_ok) 4 loop_st)) /\
   agree loop_st (st_of (flash os_ok (tick os_ok) 4 loop_st))) /\
  flash os_novalue (tick os_novalue) 4 loop_st =
    cleanup os_novalue (tick os_novalue) 13
      (ext_st [EOpen (FValue 4) 13; EErr] loop_st).
Proof.
  assert (H : flash os_ok (tick os_ok) 4 loop_st
              = Ret tt (st_of (flash os_ok (tick os_ok) 4 loop_st)))
    by reflexivity.
  split; [split; [exact H|]|].
  - exact (proj1 (proj1 (flash_completed_trace os_ok 4 loop_st) _ H)).
  - exact (proj2 (flash_completed_trace os_novalue 4 loop_st) eq_refl).
Defined.

(** C5, counterexample: when the value file cannot be opened, the pulse
    writes no value at all; [cleanup] unexports the pin and exits. *)
Lemma flash_open_failure :
  let r := flash os_novalue (tick os_novalue) 4 loop_st in
  value_writes (trace (st_of r)) = [] /\
  r = Halt (Exited 13)
        (mkSt 4 1 true None zero_buf
           [EOpen (FValue 4) 13; EErr; EOpen FUnexport 0;
            EWrite FUnexport (DNum 4) 2; EClose FUnexport]).
Proof. split; reflexivity. Qed.

(** C2 (corrected).  [setValue] with a value other than 0 or 1 reports on
    stderr and calls [cleanup(0)]: it never writes to the value file, it
    releases the pin when [isExported && gpio_pin >= 0], and it ends the
    process (status 0 when no release is due, or when the release
    succeeds). *)
Theorem setValue_invalid_exits : forall os pin v s,
  pending s = None -> v <> 0 -> v <> 1 ->
  exists h ext,
    setValue os (tick os) pin v s =
      Halt h (mkSt (gpio_pin s) (isExported s) (handler_on s) None (buf s)
                   ((trace s ++ [EErr]) ++ ext)) /\
    value_writes ext = [] /\
    count_unexport ext = (if release_cond s then 1 else 0)%nat /\
    (release_cond s = false -> h = Exited 0 /\ ext = []) /\
    (release_cond s = true ->
     os (trace s ++ [EErr]) (SOpen FUnexport) = 0 ->
     0 <= os ((trace s ++ [EErr]) ++ [EOpen FUnexport 0])
             (SWrite FUnexport (DNum (gpio_pin s))) ->
     h = Exited 0).
Proof.
  intros os pin v [p e hd pd b t] Hp H0 H1; simpl in Hp; subst pd.
  set (s1 := emit_st EErr (mkSt p e hd None b t)).
  assert (E : setValue os (tick os) pin v (mkSt p e hd None b t)
              = cleanup os (tick os) 0 s1).
  { unfold setValue.
    replace (negb (v =? 0) && negb (v =? 1)) with true
      by (apply Z.eqb_neq in H0; apply Z.eqb_neq in H1;
          rewrite H0, H1; reflexivity).
    unfold bind at 1 2; simpl.
    change (emit_st EErr (mkSt p e hd None b t)) with s1.
    destruct (cleanup os (tick os) 0 s1) eqn:C; [|reflexivity].
    exfalso; exact (cleanup_not_Ret os (tick os) _ _ _ _ _ C). }
  rewrite E, cleanup_no_signal by reflexivity.
  destruct (cleanup_spec os unit 0 s1)
    as (h & ext & Ec & Cu & Vw & Hf & Ht).
  exists h, ext; split; [exact Ec|].
  split; [exact Vw|]. split; [exact Cu|].
  split; [exact Hf|].
  intros Hc Ho Hw; exact (proj1 (Ht Hc Ho Hw)).
Qed.

Lemma setValue_invalid_exits_witness :
  pending loop_st = None /\ 2 <> 0 /\ 2 <> 1 /\
  exists h ext,
    setValue os_ok (tick os_ok) 4 2 loop_st =
      Halt h (mkSt 4 1 true None zero_buf (([] ++ [EErr]) ++ ext)).
Proof.
  split; [reflexivity|]. split; [lia|]. split; [lia|].
  destruct (setValue_invalid_exits os_ok 4 2 loop_st eq_refl
              ltac:(lia) ltac:(lia)) as (h & ext & E & _).
  exists h, ext; exact E.
Defined.

(** C2, counterexample: rejecting the value 2 is fatal: the pin is
    unexported and the process exits. *)
Lemma setValue_invalid_fatal :
  setValue os_ok (tick os_ok) 4 2 loop_st =
    Halt (Exited 0)
      (mkSt 4 1 true None zero_buf
         [EErr; EOpen FUnexport 0; EWrite FUnexport (DNum 4) 2;
          EClose FUnexport]).
Proof. reflexivity. Qed.

(** C4 (corrected).  The guarded release of [cleanup] does nothing when
    [isExported && gpio_pin >= 0] fails.  Otherwise it calls [unexportGPIO]
    and, when that returns, one more unexport call is on the trace while
    [isExported] is left as it was, so a second guarded release would
    unexport again.  A sequential second call cannot happen: [cleanup]
    never returns. *)
Theorem release_if_exported_spec : forall os s,
  pending s = None ->
  (release_cond s = false ->
   release_if_exported os (tick os) s = Ret tt s) /\
  (release_cond s = true ->
   release_if_exported os (tick os) s = unexportGPIO os (tick os) (gpio_pin s) s /\
   forall s', release_if_exported os (tick os) s = Ret tt s' ->
     release_cond s' = true /\ isExported s' = isExported s /\
     count_unexport (trace s') = S (count_unexport (trace s))) /\
  (forall A r a s', @cleanup os (tick os) A r s <> Ret a s').
Proof.
  intros os [p e hd pd b t] Hp; simpl in Hp; subst pd.
  assert (E : release_if_exported os (tick os) (mkSt p e hd None b t) =
              if release_cond (mkSt p e hd None b t)
              then unexportGPIO os (tick os) p (mkSt p e hd None b t)
              else Ret tt (mkSt p e hd None b t)).
  { unfold release_if_exported, release_cond, bind, get, ret; simpl.
    destruct (negb (e =? 0) && (0 <=? p)); reflexivity. }
  split; [|split].
  - intros C; rewrite E, C; reflexivity.
  - intros C; rewrite E, C; split; [reflexivity|].
    intros s' H.
    apply (unexportGPIO_Ret os _ (tick_Ret os)) in H
      as ((G & X & _ & _) & w & _ & T).
    unfold release_cond in *; simpl in *.
    rewrite G, X; split; [exact C|]; split; [reflexivity|].
    rewrite T, count_unexport_app.
    replace (count_unexport [EOpen FUnexport 0; EWrite FUnexport (DNum p) w;
                             EClose FUnexport]) with 1%nat by reflexivity.
    simpl; lia.
  - intros A r a s'; apply cleanup_not_Ret.
Qed.

Lemma release_if_exported_spec_witness :
  pending loop_st = None /\ release_cond loop_st = true /\
  release_if_exported os_ok (tick os_ok) loop_st
    = unexportGPIO os_ok (tick os_ok) 4 loop_st.
Proof.
  split; [reflexivity|]. split; [reflexivity|].
  exact (proj1 (proj1 (proj2 (release_if_exported_spec os_ok loop_st eq_refl))
                  eq_refl)).
Defined.

(** C4, counterexample: two guarded releases in succession on an exported
    pin make two unexport calls, one release makes one. *)
Lemma release_twice_unexports_twice :
  count_unexport
    (trace (st_of (release_if_exported os_ok (tick os_ok) loop_st))) = 1%nat /\
  count_unexport
    (trace (st_of ((release_if_exported os_ok (tick os_ok) ;;
                    release_if_exported os_ok (tick os_ok)) loop_st))) = 2%nat.
Proof. split; reflexivity. Qed.

(** C3 (code bug).  After a read of "KEY_1_UP remote" the buffer keeps its
    bytes; the next read of "x" overwrites only the first byte, and
    [strstr] still finds "_UP " in the stale part: the event is ignored.
    The same read "x" on a fresh (zeroed) buffer is acted on. *)
Lemma filter_sees_stale_bytes :
  is_actionable [] (store_read short_line (store_read release_line zero_buf))
    = false /\
  is_actionable [] (store_read short_line zero_buf) = true /\
  value_writes (trace (st_of
    (main_loop os_ok (rd_list [ReadData release_line; ReadData short_line]) []
               (tick os_ok) 2 loop_st))) = [] /\
  value_writes (trace (st_of
    (main_loop os_ok (rd_list [ReadData short_line]) [] (tick os_ok) 1 loop_st)))
    = [1; 0].
Proof. repeat split; reflexivity. Qed.

(** C8 (code bug).  The classification disagrees with the payload in both
    directions: a payload without the marker is ignored because of stale
    bytes, and a payload that contains "KEY_1_UP " after a NUL byte is
    acted on, since [strstr] stops at the NUL. *)
Lemma filter_payload_mismatch :
  strstr short_line marker = false /\
  value_writes (trace (st_of
    (main_loop os_ok (rd_list [ReadData release_line; ReadData short_line]) []
               (tick os_ok) 2 loop_st))) = [] /\
  strstr (NUL :: release_line) marker = true /\
  value_writes (trace (st_of
    (main_loop os_ok (rd_list [ReadData (NUL :: release_line)]) []
               (tick os_ok) 1 loop_st))) = [1; 0].
Proof. repeat split; reflexivity. Qed.

(** C7 (corrected).  In the event loop (pin exported, [gpio_pin >= 0]), a
    read of 0 bytes calls [cleanup(0)], which calls [unexportGPIO] exactly
    once: the process exits with status 0 when the unexport file can be
    opened and written.  When [fopen] fails, [unexportGPIO] reports and
    exits with the [errno] of [fopen], nothing having been written to the
    unexport file; when [fprintf] fails, it reports and exits with the
    [fprintf] result, without closing the file. *)
Theorem zero_read_releases_then_exits : forall os rd beyond n s,
  pending s = None -> release_cond s = true -> rd (trace s) = ReadData [] ->
  let t1 := trace s ++ [ERead (ReadData [])] in
  let o := os t1 (SOpen FUnexport) in
  let w := os (t1 ++ [EOpen FUnexport 0]) (SWrite FUnexport (DNum (gpio_pin s))) in
  main_loop os rd beyond (tick os) (S n) s =
    Halt (Exited (if negb (o =? 0) then o else if w <? 0 then w else 0))
      (mkSt (gpio_pin s) (isExported s) (handler_on s) None (buf s)
         (t1 ++ (if negb (o =? 0) then [EOpen FUnexport o; EErr]
                 else if w <? 0
                 then [EOpen FUnexport 0; EWrite FUnexport (DNum (gpio_pin s)) w;
                       EErr]
                 else [EOpen FUnexport 0; EWrite FUnexport (DNum (gpio_pin s)) w;
                       EClose FUnexport]))).
Proof.
  intros os rd beyond n [p e hd pd b t] Hp C Hr; cbv zeta;
    unfold release_cond in C; simpl in Hp, Hr, C; subst pd.
  assert (E : main_loop os rd beyond (tick os) (S n) (mkSt p e hd None b t)
              = cleanup os (tick os) 0
                  (mkSt p e hd None b (t ++ [ERead (ReadData [])]))).
  { simpl; unfold read_lirc, bind at 1 2; simpl; rewrite Hr; reflexivity. }
  rewrite E, cleanup_no_signal by reflexivity.
  unfold cleanup, release_if_exported, unexportGPIO, fopen_w, fprintf_w,
    fclose_w, syscall, report, exit, emit, modify, bind, get, ret, halt,
    emit_st; simpl.
  rewrite C, <- ?app_assoc; simpl.
  remember (os (t ++ [ERead (ReadData [])]) (SOpen FUnexport)) as o eqn:Ho.
  destruct (Z.eqb_spec o 0) as [->|]; simpl;
    [|rewrite <- ?app_assoc; reflexivity].
  rewrite <- ?app_assoc; simpl.
  remember (os (t ++ [ERead (ReadData []); EOpen FUnexport 0])
               (SWrite FUnexport (DNum p))) as w eqn:Hw.
  destruct (w <? 0); simpl; rewrite <- ?app_assoc; reflexivity.
Qed.

Lemma zero_read_releases_then_exits_witness :
  main_loop os_ok (rd_list []) [] (tick os_ok) 1 loop_st =
    Halt (Exited 0)
      (mkSt 4 1 true None zero_buf
         [ERead (ReadData []); EOpen FUnexport 0; EWrite FUnexport (DNum 4) 2;
          EClose FUnexport]) /\
  main_loop os_nounexport (rd_list []) [] (tick os_nounexport) 1 loop_st =
    Halt (Exited 13)
      (mkSt 4 1 true None zero_buf [ERead (ReadData []); EOpen FUnexport 13; EErr]).
Proof.
  split.
  - exact (zero_read_releases_then_exits os_ok (rd_list []) [] 0 loop_st
             eq_refl eq_refl eq_refl).
  - exact (zero_read_releases_then_exits os_nounexport (rd_list []) [] 0 loop_st
             eq_refl eq_refl eq_refl).
Defined.

(** C7, counterexample: when the unexport file cannot be opened, the
    0-byte read ends with the error code of [fopen], not 0, and the pin
    stays exported. *)
Lemma zero_read_unexport_failure :
  main_loop os_nounexport (rd_list []) [] (tick os_nounexport) 1 loop_st =
    Halt (Exited 13)
      (mkSt 4 1 true None zero_buf
         [ERead (ReadData []); EOpen FUnexport 13; EErr]).
Proof. reflexivity. Qed.




(** C6 (confirmed).  When the pin taken from the arguments is not in the
    allow-list, the run (without SIGINT) reports on stderr and exits with
    [EXIT_FAILURE]; its whole trace is that one message, so no GPIO file
    was opened or written. *)
Theorem invalid_pin_rejected : forall os rd beyond opts pos fuel buf0 d s0 path s1,
  getopt_loop (tick os) opts false (init_st buf0 None) = Ret d s0 ->
  set_args (tick os) pos s0 = Ret path s1 ->
  valid_pin (gpio_pin s1) = false ->
  run_main os rd beyond opts pos fuel buf0 None =
    Halt (Exited EXIT_FAILURE) (emit_st EErr s1) /\
  trace (emit_st EErr s1) = [EErr] /\
  existsb is_gpio (trace (emit_st EErr s1)) = false.
Proof.
  intros os rd beyond opts pos fuel buf0 d s0 path s1 Hg Ha Hv.
  pose proof (getopt_loop_Ret _ _ _ _ _ _ Hg) as ->.
  destruct (set_args_Ret os pos (init_st buf0 None) path s1 eq_refl Ha) as [p ->].
  assert (Hc : check_pin (tick os) (set_pin_st p (init_st buf0 None)) =
               Halt (Exited EXIT_FAILURE)
                    (emit_st EErr (set_pin_st p (init_st buf0 None))))
    by (apply check_pin_invalid; [reflexivity | exact Hv]).
  split; [|split; reflexivity].
  unfold run_main, main, main_init.
  apply bind_Halt_l.
  rewrite (bind_Ret_l _ _ _ _ _ _ _ Hg).
  rewrite (bind_Ret_l _ _ _ _ _ _ _ Ha).
  apply bind_Halt_l; exact Hc.
Qed.

Lemma invalid_pin_rejected_witness :
  getopt_loop (tick os_ok) [] false (init_st zero_buf None)
    = Ret false (init_st zero_buf None) /\
  set_args (tick os_ok) ["5"%string] (init_st zero_buf None)
    = Ret DEFAULT_SOCKET (set_pin_st 5 (init_st zero_buf None)) /\
  valid_pin 5 = false /\
  run_main os_ok (rd_list []) [] [] ["5"%string] 1 zero_buf None =
    Halt (Exited EXIT_FAILURE) (emit_st EErr (set_pin_st 5 (init_st zero_buf None))).
Proof.
  split; [reflexivity|]. split; [reflexivity|]. split; [reflexivity|].
  exact (proj1 (invalid_pin_rejected os_ok (rd_list []) [] [] ["5"%string] 1
                  zero_buf false (init_st zero_buf None) DEFAULT_SOCKET
                  (set_pin_st 5 (init_st zero_buf None))
                  eq_refl eq_refl eq_refl)).
Defined.

(** C10 (confirmed).  With one or two positional arguments (a socket path
    short enough for [sun_path]), a first argument on which [strtold]
    performs no conversion (e.g. "abc") sets [gpio_pin] to 0, and 0 passes
    the pin check. *)
Theorem nonnumeric_pin_is_zero : forall os a rest s,
  pending s = None ->
  (rest = [] \/ exists b, rest = [b] /\ (String.length b < SUN_PATH_LEN)%nat) ->
  strtold_scan (list_ascii_of_string a) = NoConv ->
  exists path,
    set_args (tick os) (a :: rest) s = Ret path (set_pin_st 0 s) /\
    check_pin (tick os) (set_pin_st 0 s) = Ret tt (set_pin_st 0 s).
Proof.
  intros os a rest [p e hd pd b t] Hp Hr Hs; simpl in Hp; subst pd.
  assert (Hz : strtold_int a = Some 0)
    by (unfold strtold_int; rewrite Hs; reflexivity).
  destruct Hr as [-> | (c & -> & Hc)]; eexists;
    unfold set_args, set_pin_from, strcpy_sun_path; rewrite Hz;
    [|apply Nat.leb_gt in Hc; rewrite Hc]; split; reflexivity.
Qed.

Lemma nonnumeric_pin_is_zero_witness :
  strtold_scan (list_ascii_of_string "abc") = NoConv /\
  exists path,
    set_args (tick os_ok) ["abc"%string] (init_st zero_buf None)
      = Ret path (set_pin_st 0 (init_st zero_buf None)).
Proof.
  split; [reflexivity|].
  destruct (nonnumeric_pin_is_zero os_ok "abc" [] (init_st zero_buf None)
              eq_refl (or_introl eq_refl) eq_refl) as (path & E & _).
  exists path; exact E.
Defined.

(** C1 (corrected).  The LIRC connection is made BEFORE the pin is exported:
    in every run, every GPIO call comes after a successful [connect].  When
    [connect] fails, [main] calls [exit(errno)] directly: no pin has been
    exported, no GPIO call has been made and [cleanup] does not run; without
    a signal the exit code is the [connect] error. *)
Theorem connect_precedes_gpio : forall os rd beyond opts pos fuel buf0 sig,
  let r := run_main os rd beyond opts pos fuel buf0 sig in
  (forall i e, nth_error (trace (st_of r)) i = Some e -> is_gpio e = true ->
   exists j path, (j < i)%nat /\
     nth_error (trace (st_of r)) j = Some (EConnect path 0)) /\
  ((forall t p, os t (SConnect p) <> 0) ->
   exists h s, r = Halt h s /\ isExported s = 0 /\ no_gpio (trace s) = true /\
     (sig = None -> forall p c, In (EConnect p c) (trace s) -> h = Exited c)).
Proof.
  intros os rd beyond opts pos fuel buf0 sig r; split;
    [|apply main_connect_fails].
  intros i e Hi Hg.
  destruct (main_conn_final os rd beyond opts pos fuel buf0 sig)
    as [N | (pre & path & post & T & Hp)].
  - apply nth_error_In in Hi.
    unfold no_gpio in N; rewrite forallb_forall in N.
    apply N in Hi; rewrite Hg in Hi; discriminate.
  - fold r in T; rewrite T in Hi |- *.
    exists (List.length pre), path; split.
    + destruct (Nat.lt_ge_cases i (List.length pre)) as [Lt|Ge].
      * rewrite nth_error_app1 in Hi by exact Lt.
        apply nth_error_In in Hi.
        unfold no_gpio in Hp; rewrite forallb_forall in Hp.
        apply Hp in Hi; rewrite Hg in Hi; discriminate.
      * destruct (Nat.eq_dec i (List.length pre)) as [->|Ne]; [|lia].
        rewrite nth_error_app2, Nat.sub_diag in Hi by lia.
        simpl in Hi; injection Hi; intros <-; discriminate.
    + rewrite nth_error_app2, Nat.sub_diag by lia; reflexivity.
Qed.

Lemma connect_precedes_gpio_witness :
  nth_error (trace (st_of (run_main os_ok (rd_list []) [] [] [] 0 zero_buf None)))
    3 = Some (EOpen FExport 0) /\
  (exists j path, (j < 3)%nat /\
     nth_error (trace (st_of (run_main os_ok (rd_list []) [] [] [] 0
                                       zero_buf None))) j
       = Some (EConnect path 0)) /\
  (forall t p, os_noconn t (SConnect p) <> 0) /\
  (exists h s, run_main os_noconn (rd_list []) [] [] [] 1 zero_buf None
                 = Halt h s /\ isExported s = 0 /\ no_gpio (trace s) = true /\
     (@None nat = None ->
      forall p c, In (EConnect p c) (trace s) -> h = Exited c)).
Proof.
  assert (N : forall t p, os_noconn t (SConnect p) <> 0)
    by (intros; simpl; discriminate).
  split; [reflexivity|split; [|split; [exact N|]]].
  - apply (proj1 (connect_precedes_gpio os_ok (rd_list []) [] [] [] 0
                    zero_buf None) 3%nat (EOpen FExport 0)); reflexivity.
  - exact (proj2 (connect_precedes_gpio os_noconn (rd_list []) [] [] [] 1
                    zero_buf None) N).
Defined.

(** C1: with the default arguments, a [connect] refused with ECONNREFUSED
    (111) ends the process with exit code 111, the pin never exported and
    no unexport call made. *)
Lemma connect_failure_no_cleanup :
  exists s,
    run_main os_noconn (rd_list []) [] [] [] 1 zero_buf None
      = Halt (Exited 111) s /\
    isExported s = 0 /\ count_unexport (trace s) = 0%nat /\
    no_gpio (trace s) = true /\ In (EConnect DEFAULT_SOCKET 111) (trace s).
Proof. eexists; split; [reflexivity|]; vm_compute; auto 10. Qed.


(** ** Further properties *)

(** The pin argument is read as its leading decimal integer: blanks, an
    optional '-', digits, then anything that does not continue a number
    (a digit, '.', an exponent 'e', or the 'x' of a "0x" prefix); the
    characters after the digits are ignored ([strtold] with a NULL end
    pointer).  The value is kept when it fits an [int]. *)
Theorem strtold_int_leading : forall ws (neg : bool) ds rest,
  forallb is_space ws = true ->
  ds <> [] -> forallb is_digit ds = true ->
  match rest with
  | [] => True
  | c :: _ => is_digit c = false /\ c <> "."%char /\
              to_lower c <> "e"%char /\
              (ds = ["0"%char] -> to_lower c <> "x"%char)
  end ->
  let v := if neg then - digits_value ds else digits_value ds in
  INT_MIN <= v <= INT_MAX ->
  strtold_int (string_of_list_ascii
                 (ws ++ (if neg then ["-"%char] else []) ++ ds ++ rest)) =
    Some v.
Proof.
  intros ws neg ds rest Hw Hne Hd Hr v Hv; subst v.
  unfold strtold_int, strtold_scan.
  rewrite list_ascii_of_string_of_list_ascii, skip_space_app by exact Hw.
  assert (Hx0 : forall c, (ds = ["0"%char] -> to_lower c <> "x"%char) ->
            prefixb ds ["0"%char] && Nat.eqb (List.length ds) 1
            && Ascii.eqb (to_lower c) "x"%char = false).
  { intros c Hc.
    destruct ds as [|d [|d' ds'']];
      [reflexivity| |simpl; rewrite ?andb_false_r; reflexivity].
    cbn [prefixb List.length Nat.eqb]; rewrite andb_true_r, andb_true_r.
    destruct (Ascii.eqb_spec d "0"%char) as [->|]; [|reflexivity].
    apply Ascii.eqb_neq, Hc; reflexivity. }
  destruct ds as [|d ds']; [congruence|].
  assert (Hd0 : is_digit d = true) by (simpl in Hd; destruct (is_digit d); auto).
  assert (Hsp : match rest with [] => True | c :: _ => is_digit c = false end)
    by (destruct rest; [exact I | apply Hr]).
  assert (Hd' : forallb is_digit ds' = true)
    by (simpl in Hd; destruct (is_digit d); [exact Hd|discriminate]).
  destruct neg; simpl;
    [|rewrite (is_digit_not_space d Hd0),
              (is_digit_not_eq d "-"%char Hd0 eq_refl),
              (is_digit_not_eq d "+"%char Hd0 eq_refl)];
    cbn [span_digits]; rewrite Hd0, (span_digits_app ds' rest Hd' Hsp).
  all: destruct rest as [|c r];
    [|destruct Hr as (_ & Hdot & He & Hx);
      apply Ascii.eqb_neq in Hdot, He; rewrite Hdot, He, (Hx0 c Hx);
      cbn iota beta].
  all: simpl.
  all: (match goal with |- (if ?b then _ else _) = _ => destruct b eqn:Hb end;
     [reflexivity|]);
    apply andb_false_iff in Hb as [Hb|Hb]; apply Z.leb_gt in Hb; lia.
Qed.

Lemma strtold_int_leading_witness :
  strtold_int " 17abc"%string = Some 17 /\
  strtold_int "-2147483648"%string = Some (-2147483648) /\
  strtold_int "0e"%string = None /\
  strtold_int "10x"%string = Some 10.
Proof.
  split; [|split; [|split; [reflexivity|]]].
  - exact (strtold_int_leading [" "%char] false ["1"%char; "7"%char]
             ["a"%char; "b"%char; "c"%char] eq_refl ltac:(discriminate) eq_refl
             ltac:(repeat split; try reflexivity; intro H; vm_compute in H;
                   discriminate)
             ltac:(unfold INT_MIN, INT_MAX; vm_compute; split; congruence)).
  - exact (strtold_int_leading [] true
             ["2"; "1"; "4"; "7"; "4"; "8"; "3"; "6"; "4"; "8"]%char
             [] eq_refl ltac:(discriminate) eq_refl I
             ltac:(unfold INT_MIN, INT_MAX; vm_compute; split; congruence)).
  - exact (strtold_int_leading [] false ["1"%char; "0"%char] ["x"%char]
             eq_refl ltac:(discriminate) eq_refl
             ltac:(repeat split; try reflexivity;
                   try (intro H; vm_compute in H; discriminate);
                   intro H; discriminate H)
             ltac:(unfold INT_MIN, INT_MAX; vm_compute; split; congruence)).
Defined.


(** The event loop never reconnects or re-exports: it makes no [socket],
    [connect] or [fork] call, does not touch the export or direction files,
    does not set [isExported] or the handler again and prints nothing on
    stdout.  It only reads, seeks, sleeps, reports on stderr, writes the
    value files and (in [cleanup]) the unexport file. *)
Theorem main_loop_events : forall os rd beyond n,
  appends loop_event (main_loop os rd beyond (tick os) n).
Proof.
  intros os rd beyond n; induction n as [|n IH]; simpl;
    [apply appends_ret|].
  unfold flash, setValue; app_prog.
Qed.

(** Options are handled in order.  A run of [-d] options only sets
    [isDaemon]; the first other option decides: [-h] prints the five usage
    lines on stdout and exits 0, [-v] prints the version and exits 0, an
    unrecognised option gives three lines on stderr ([getopt_long]'s own
    diagnostic, then the two of [main]) and exits 1.  The options after it
    are never looked at. *)
Theorem getopt_loop_outcome : forall os n o rest d s,
  pending s = None ->
  getopt_loop (tick os) (repeat OptDaemon n) d s = Ret (d || (0 <? n)%nat) s /\
  getopt_loop (tick os) (repeat OptDaemon n ++ o :: rest) d s =
    match o with
    | OptHelp => Halt (Exited EXIT_SUCCESS) (ext_st [EOut; EOut; EOut; EOut; EOut] s)
    | OptVersion => Halt (Exited EXIT_SUCCESS) (ext_st [EOut] s)
    | OptUnknown _ => Halt (Exited EXIT_FAILURE) (ext_st [EErr; EErr; EErr] s)
    | OptDaemon => getopt_loop (tick os) rest true s
    end.
Proof.
  intros os n o rest d [p x hd pd b t] Hp; simpl in Hp; subst pd.
  revert d; induction n as [|n IH]; intro d.
  - split; [simpl; rewrite orb_false_r; reflexivity|].
    destruct o; simpl; [| | reflexivity |];
      unfold print, report, exit, emit, modify, bind, halt, tick, ext_st, emit_st;
      simpl; rewrite <- ?app_assoc; reflexivity.
  - destruct (IH true) as [IH1 IH2]; simpl; split.
    + rewrite IH1, orb_true_r; reflexivity.
    + destruct n; simpl in IH2 |- *; exact IH2.
Qed.


Lemma getopt_loop_outcome_witness :
  getopt_loop (tick os_ok) [OptDaemon; OptHelp; OptVersion] false loop_st =
    Halt (Exited EXIT_SUCCESS) (ext_st [EOut; EOut; EOut; EOut; EOut] loop_st).
Proof.
  exact (proj2 (getopt_loop_outcome os_ok 1 OptHelp [OptVersion] false loop_st
                  eq_refl)).
Defined.

(** With [-d], the process forks right after the pin check.  If [fork]
    fails (negative result), the process exits 1.  In the parent (positive
    pid) it exits 0.  In both cases the only event is the fork: no handler,
    socket or GPIO call. *)
Theorem daemon_fork_exits : forall os rd beyond opts pos fuel buf0 path p,
  getopt_loop (tick os) opts false (init_st buf0 None) =
    Ret true (init_st buf0 None) ->
  set_args (tick os) pos (init_st buf0 None) =
    Ret path (set_pin_st p (init_st buf0 None)) ->
  valid_pin p = true ->
  os [] SFork <> 0 ->
  run_main os rd beyond opts pos fuel buf0 None =
    Halt (Exited (if os [] SFork <? 0 then EXIT_FAILURE else EXIT_SUCCESS))
         (mkSt p 0 false None buf0 [EFork (os [] SFork)]).
Proof.
  intros os rd beyond opts pos fuel buf0 path p Hg Ha Hv Hf.
  rewrite (run_main_after_check os rd beyond opts pos fuel buf0 true path p Hg Ha Hv).
  unfold daemonize, syscall, exit, bind, halt, ret, tick; simpl.
  destruct (os [] SFork <? 0) eqn:Hl; [reflexivity|].
  destruct (0 <? os [] SFork) eqn:Hr; [reflexivity|].
  apply Z.ltb_ge in Hl; apply Z.ltb_ge in Hr; lia.
Qed.


Lemma daemon_fork_exits_witness :
  run_main (os_fork 1234) (rd_list []) [] [OptDaemon] [] 1 zero_buf None =
    Halt (Exited EXIT_SUCCESS) (mkSt 4 0 false None zero_buf [EFork 1234]).
Proof.
  exact (daemon_fork_exits (os_fork 1234) (rd_list []) [] [OptDaemon] [] 1
           zero_buf DEFAULT_SOCKET 4 eq_refl eq_refl eq_refl
           ltac:(intro H; vm_compute in H; discriminate)).
Defined.

(** Without [-d], a failing [socket] call ends the run right after
    installing the handler, with [errno] as [perror("socket")] left it.
    [connect] is never attempted, no GPIO call is made and [cleanup] does
    not run. *)
Theorem socket_failure_exits : forall os rd beyond opts pos fuel buf0 path p,
  getopt_loop (tick os) opts false (init_st buf0 None) =
    Ret false (init_st buf0 None) ->
  set_args (tick os) pos (init_st buf0 None) =
    Ret path (set_pin_st p (init_st buf0 None)) ->
  valid_pin p = true ->
  os [EHandler] SSocket <> 0 ->
  let r := os [EHandler] SSocket in
  run_main os rd beyond opts pos fuel buf0 None =
    Halt (Exited (os [EHandler; ESocket r] (SPerror r)))
         (mkSt p 0 true None buf0 [EHandler; ESocket r; EErr]).
Proof.
  intros os rd beyond opts pos fuel buf0 path p Hg Ha Hv Hs r.
  rewrite (run_main_after_check os rd beyond opts pos fuel buf0 false path p Hg Ha Hv).
  unfold daemonize, install_handler, lirc_init, perror, syscall, exit, emit,
    modify, bind, halt, ret, tick; simpl.
  apply Z.eqb_neq in Hs; rewrite Hs; reflexivity.
Qed.


Lemma socket_failure_exits_witness :
  run_main os_nosock (rd_list []) [] [] [] 1 zero_buf None =
    Halt (Exited 97) (mkSt 4 0 true None zero_buf [EHandler; ESocket 97; EErr]).
Proof.
  exact (socket_failure_exits os_nosock (rd_list []) [] [] [] 1 zero_buf
           DEFAULT_SOCKET 4 eq_refl eq_refl eq_refl
           ltac:(intro H; vm_compute in H; discriminate)).
Defined.

(** When every OS call succeeds, the start-up runs in this order: fork
    (with [-d], in the child), install the handler, [socket], [connect],
    export the pin, set [isExported = 1], set the direction to "out".  Then
    the event loop starts with the pin exported and the handler installed. *)
Theorem startup_reaches_loop : forall os rd beyond opts pos fuel buf0 d path p,
  getopt_loop (tick os) opts false (init_st buf0 None) =
    Ret d (init_st buf0 None) ->
  set_args (tick os) pos (init_st buf0 None) =
    Ret path (set_pin_st p (init_st buf0 None)) ->
  valid_pin p = true ->
  (d = true -> os [] SFork = 0) ->
  (forall t, os t SSocket = 0) -> (forall t q, os t (SConnect q) = 0) ->
  (forall t f, os t (SOpen f) = 0) -> (forall t f x, 0 <= os t (SWrite f x)) ->
  exists w1 w2,
    run_main os rd beyond opts pos fuel buf0 None =
    main_loop os rd beyond (tick os) fuel
      (mkSt p 1 true None buf0
        ((if d then [EFork 0] else []) ++
         [EHandler; ESocket 0; EConnect path 0; EOpen FExport 0;
          EWrite FExport (DNum p) w1; EClose FExport; ESetExported;
          EOpen (FDirection p) 0; EWrite (FDirection p) DOut w2;
          EClose (FDirection p)])).
Proof.
  intros os rd beyond opts pos fuel buf0 d path p Hg Ha Hv Hf Hs Hc Ho Hw.
  rewrite (run_main_after_check os rd beyond opts pos fuel buf0 d path p Hg Ha Hv).
  set (t0 := if d then [EFork 0] else []).
  set (t1 := t0 ++ [EHandler; ESocket 0; EConnect path 0]).
  set (w1 := os (t1 ++ [EOpen FExport 0]) (SWrite FExport (DNum p))).
  set (t2 := t1 ++ [EOpen FExport 0; EWrite FExport (DNum p) w1; EClose FExport;
                    ESetExported; EOpen (FDirection p) 0]).
  set (w2 := os t2 (SWrite (FDirection p) DOut)).
  exists w1, w2.
  assert (D : daemonize os (tick os) d (set_pin_st p (init_st buf0 None)) =
              Ret tt (mkSt p 0 false None buf0 t0)).
  { subst t0; destruct d; unfold daemonize, syscall, bind, ret, tick, exit, halt;
      simpl; [rewrite (Hf eq_refl)|]; reflexivity. }
  assert (I : install_handler (tick os) (mkSt p 0 false None buf0 t0) =
              Ret tt (mkSt p 0 true None buf0 (t0 ++ [EHandler]))) by reflexivity.
  assert (L : lirc_init os (tick os) path (mkSt p 0 true None buf0 (t0 ++ [EHandler]))
              = Ret tt (mkSt p 0 true None buf0 t1)).
  { unfold lirc_init, syscall, exit, perror, emit, modify, bind, ret, halt, tick;
      simpl.
    rewrite (Hs (t0 ++ [EHandler])); simpl.
    rewrite (Hc ((t0 ++ [EHandler]) ++ [ESocket 0]) path); simpl.
    unfold t1, emit_st; simpl; rewrite <- !app_assoc; reflexivity. }
  assert (G : gpio_init os (tick os) (mkSt p 0 true None buf0 t1) =
              Ret tt (mkSt p 1 true None buf0
                        (t2 ++ [EWrite (FDirection p) DOut w2; EClose (FDirection p)]))).
  { unfold gpio_init, exportGPIO, setAsOutput, set_exported, syscall, fopen_w,
      fprintf_w, fclose_w, report, exit, cleanup, emit, modify, bind, get, ret,
      halt, tick; simpl.
    repeat (match goal with
            | |- context [os ?t (SOpen ?f)] => rewrite (Ho t f)
            | |- context [os ?t (SWrite ?f ?x) <? 0] =>
                rewrite (proj2 (Z.ltb_ge _ _) (Hw t f x))
            end; simpl).
    unfold w2, t2, w1, emit_st, set_exported_st; simpl.
    rewrite <- !app_assoc; reflexivity. }
  refine (bind_Ret_l _ _ _ _ _ tt _ _).
  rewrite (bind_Ret_l _ _ _ _ _ _ _ D), (bind_Ret_l _ _ _ _ _ _ _ I),
    (bind_Ret_l _ _ _ _ _ _ _ L).
  unfold t2, t1 in G; rewrite <- !app_assoc in G; exact G.
Qed.


Lemma startup_reaches_loop_witness :
  exists w1 w2,
    run_main os_ok (rd_list []) [] [] [] 1 zero_buf None =
    main_loop os_ok (rd_list []) [] (tick os_ok) 1
      (mkSt 4 1 true None zero_buf
        ([] ++
         [EHandler; ESocket 0; EConnect DEFAULT_SOCKET 0; EOpen FExport 0;
          EWrite FExport (DNum 4) w1; EClose FExport; ESetExported;
          EOpen (FDirection 4) 0; EWrite (FDirection 4) DOut w2;
          EClose (FDirection 4)])).
Proof.
  exact (startup_reaches_loop os_ok (rd_list []) [] [] [] 1 zero_buf false
           DEFAULT_SOCKET 4 eq_refl eq_refl eq_refl (fun _ => eq_refl)
           (fun _ => eq_refl) (fun _ _ => eq_refl) (fun _ _ => eq_refl)
           ltac:(intros; unfold os_ok; lia)).
Defined.

(** [exportGPIO] called while nothing is exported (as in [main]): if
    the export file cannot be opened, the process exits with the [fopen]
    errno.  If the write fails, it exits with the negative [fprintf] result
    (not errno).  Neither failure closes the file or calls the unexport
    file.  On success the export file is opened, written and closed. *)
Theorem exportGPIO_outcome : forall os pin s,
  pending s = None -> isExported s = 0 ->
  let r := os (trace s) (SOpen FExport) in
  let w := os (trace s ++ [EOpen FExport 0]) (SWrite FExport (DNum pin)) in
  exportGPIO os (tick os) pin s =
    if negb (r =? 0) then Halt (Exited r) (ext_st [EOpen FExport r; EErr] s)
    else if w <? 0 then
      Halt (Exited w) (ext_st [EOpen FExport 0; EWrite FExport (DNum pin) w; EErr] s)
    else Ret tt (ext_st [EOpen FExport 0; EWrite FExport (DNum pin) w;
                         EClose FExport] s).
Proof.
  intros os pin [p e hd pd b t] Hp He r w; simpl in Hp, He, r, w; subst pd e.
  subst r w.
  unfold exportGPIO, cleanup, release_if_exported, fopen_w, fprintf_w, fclose_w,
    syscall, report, exit, emit, modify, bind, get, ret, halt, tick, ext_st, emit_st; simpl.
  destruct (os t (SOpen FExport) =? 0) eqn:Ho; simpl.
  - apply Z.eqb_eq in Ho; rewrite Ho.
    destruct (os (t ++ [EOpen FExport 0]) (SWrite FExport (DNum pin)) <? 0);
      simpl; rewrite <- !app_assoc; reflexivity.
  - rewrite <- !app_assoc; reflexivity.
Qed.


Lemma exportGPIO_outcome_witness :
  exportGPIO os_ok (tick os_ok) 4 (init_st zero_buf None) =
    Ret tt (ext_st [EOpen FExport 0; EWrite FExport (DNum 4) 2; EClose FExport]
                   (init_st zero_buf None)).
Proof. exact (exportGPIO_outcome os_ok 4 (init_st zero_buf None) eq_refl eq_refl). Defined.

(** When the direction file cannot be opened after the pin was exported,
    [setAsOutput] reports it and calls [cleanup] with the [fopen] errno.
    That makes exactly one unexport call, and the exit code is that errno
    when the unexport succeeds. *)
Theorem setAsOutput_failure_releases : forall os pin s,
  pending s = None -> release_cond s = true ->
  os (trace s) (SOpen (FDirection pin)) <> 0 ->
  let r := os (trace s) (SOpen (FDirection pin)) in
  let t1 := trace s ++ [EOpen (FDirection pin) r; EErr] in
  exists h ext,
    setAsOutput os (tick os) pin s =
      Halt h (mkSt (gpio_pin s) (isExported s) (handler_on s) None (buf s)
                   (t1 ++ ext)) /\
    count_unexport ext = 1%nat /\
    (os t1 (SOpen FUnexport) = 0 ->
     0 <= os (t1 ++ [EOpen FUnexport 0]) (SWrite FUnexport (DNum (gpio_pin s))) ->
     h = Exited r).
Proof.
  intros os pin [p x hd pd b t] Hp C Ho r t1; simpl in Hp, Ho, r, t1; subst pd.
  set (s1 := mkSt p x hd None b t1).
  assert (E : setAsOutput os (tick os) pin (mkSt p x hd None b t)
              = cleanup os (tick os) r s1).
  { assert (F : fopen_w os (tick os) (FDirection pin) (mkSt p x hd None b t) =
                Ret r (emit_st (EOpen (FDirection pin) r) (mkSt p x hd None b t)))
      by reflexivity.
    unfold setAsOutput; rewrite (bind_Ret_l _ _ _ _ _ _ _ F).
    apply Z.eqb_neq in Ho; fold r in Ho; rewrite Ho; simpl.
    match goal with |- bind (report ?bd) _ ?s = _ =>
      assert (R : report bd s = Ret tt s1)
        by (unfold report, emit, modify, bind, tick, s1, t1, emit_st; simpl;
            rewrite <- app_assoc; reflexivity);
      rewrite (bind_Ret_l _ _ _ _ _ _ _ R); reflexivity
    end. }
  rewrite E, cleanup_no_signal by reflexivity.
  destruct (cleanup_spec os unit r s1) as (h & ext & Ec & Cu & _ & _ & Ht).
  assert (C1 : release_cond s1 = true) by exact C.
  exists h, ext; split; [exact Ec|]; rewrite C1 in Cu; split; [exact Cu|].
  intros Ho' Hw; exact (proj1 (Ht C1 Ho' Hw)).
Qed.


Lemma setAsOutput_failure_releases_witness :
  exists h ext,
    setAsOutput os_nodir (tick os_nodir) 4 loop_st =
      Halt h (mkSt 4 1 true None zero_buf
                   (([] ++ [EOpen (FDirection 4) 2; EErr]) ++ ext)) /\
    count_unexport ext = 1%nat.
Proof.
  destruct (setAsOutput_failure_releases os_nodir 4 loop_st eq_refl eq_refl
              ltac:(intro H; vm_compute in H; discriminate))
    as (h & ext & E & C & _).
  exists h, ext; split; [exact E | exact C].
Defined.

(** One iteration of the event loop on a read of [d <> []] bytes, when
    the value file of the pin can be opened and written.  The bytes go into
    [buf]; if the filter finds no "_UP " there, one pulse is made (value 1,
    [usleep(100000)], value 0); then [lseek] is called and the next iteration
    starts. *)
Theorem loop_iteration : forall os rd beyond n s d,
  pending s = None -> rd (trace s) = ReadData d -> d <> [] ->
  (forall t, os t (SOpen (FValue (gpio_pin s))) = 0) ->
  (forall t v, 0 <= os t (SWrite (FValue (gpio_pin s)) (DNum v))) ->
  let b := store_read d (buf s) in
  let p := gpio_pin s in
  exists w1 w2,
    main_loop os rd beyond (tick os) (S n) s =
    main_loop os rd beyond (tick os) n
      (ext_st (ERead (ReadData d) ::
               (if is_actionable beyond b then
                  [EOpen (FValue p) 0; EWrite (FValue p) (DNum 1) w1;
                   EClose (FValue p); ESleep 100000;
                   EOpen (FValue p) 0; EWrite (FValue p) (DNum 0) w2;
                   EClose (FValue p)]
                else []) ++ [ESeek])
              (set_buf_st b s)).
Proof.
  intros os rd beyond n [p e hd pd b t] d Hp Hr Hd Ho Hw b' p'; simpl in *; subst pd.
  subst b' p'.
  destruct d as [|c d']; [congruence|].
  unfold read_lirc, flash, setValue, fopen_w, fprintf_w, fclose_w, usleep,
    syscall, report, exit, cleanup, emit, modify, bind, get, ret, halt, tick,
    ext_st, emit_st, set_buf_st; simpl.
  rewrite Hr; simpl.
  destruct (is_actionable beyond (store_read (c :: d') b)); simpl.
  - repeat (match goal with
          | |- context [os ?t (SOpen ?f)] => rewrite (Ho t)
          | |- context [os ?t (SWrite ?f ?x) <? 0] =>
              rewrite (proj2 (Z.ltb_ge _ _) (Hw t _))
          end; simpl).
    eexists; eexists; rewrite <- !app_assoc; reflexivity.
  - exists 0, 0; rewrite <- !app_assoc; reflexivity.
Qed.


Lemma loop_iteration_witness :
  exists w1 w2,
    main_loop os_ok (rd_list [ReadData short_line]) [] (tick os_ok) 1 loop_st =
    main_loop os_ok (rd_list [ReadData short_line]) [] (tick os_ok) 0
      (ext_st (ERead (ReadData short_line) ::
               (if is_actionable [] (store_read short_line zero_buf) then
                  [EOpen (FValue 4) 0; EWrite (FValue 4) (DNum 1) w1;
                   EClose (FValue 4); ESleep 100000;
                   EOpen (FValue 4) 0; EWrite (FValue 4) (DNum 0) w2;
                   EClose (FValue 4)]
                else []) ++ [ESeek])
              (set_buf_st (store_read short_line zero_buf) loop_st)).
Proof.
  exact (loop_iteration os_ok (rd_list [ReadData short_line]) [] 0 loop_st
           short_line eq_refl eq_refl ltac:(discriminate) (fun _ => eq_refl)
           ltac:(intros; unfold os_ok; lia)).
Defined.

(** A failing [read] in the event loop reports it with [perror] and calls
    [cleanup(errno)] with [errno] as [perror] left it.  The pin is
    unexported once if [isExported && gpio_pin >= 0] holds, and never
    otherwise.  The exit code is that [errno] when no release is due or the
    release succeeds. *)
Theorem read_error_releases : forall os rd beyond n s e,
  pending s = None -> rd (trace s) = ReadErr e ->
  let e' := os (trace s ++ [ERead (ReadErr e)]) (SPerror e) in
  let t1 := trace s ++ [ERead (ReadErr e); EErr] in
  exists h ext,
    main_loop os rd beyond (tick os) (S n) s =
      Halt h (mkSt (gpio_pin s) (isExported s) (handler_on s) None (buf s)
                   (t1 ++ ext)) /\
    count_unexport ext = (if release_cond s then 1 else 0)%nat /\
    (release_cond s = false -> h = Exited e' /\ ext = []) /\
    (release_cond s = true -> os t1 (SOpen FUnexport) = 0 ->
     0 <= os (t1 ++ [EOpen FUnexport 0]) (SWrite FUnexport (DNum (gpio_pin s))) ->
     h = Exited e').
Proof.
  intros os rd beyond n [p x hd pd b t] e Hp Hr e' t1; simpl in Hp, Hr; subst pd.
  set (s1 := mkSt p x hd None b t1).
  assert (E : main_loop os rd beyond (tick os) (S n) (mkSt p x hd None b t)
              = cleanup os (tick os) e' s1).
  { simpl; unfold read_lirc, bind at 1 2; simpl; rewrite Hr.
    match goal with |- bind (perror ?os' ?bd _) _ ?s = _ =>
      assert (R : perror os' bd e s = Ret e' s1)
        by (unfold perror, syscall, emit, modify, bind, tick, s1, t1, e',
              emit_st; simpl; rewrite <- app_assoc; reflexivity);
      rewrite (bind_Ret_l _ _ _ _ _ _ _ R); reflexivity
    end. }
  rewrite E, cleanup_no_signal by reflexivity.
  destruct (cleanup_spec os unit e' s1) as (h & ext & Ec & Cu & _ & Hf & Ht).
  exists h, ext; split; [exact Ec|]; split; [exact Cu|]; split.
  - exact Hf.
  - intros C Ho Hw; exact (proj1 (Ht C Ho Hw)).
Qed.

Lemma read_error_releases_witness :
  exists h ext,
    main_loop os_ok (fun _ => ReadErr 5) [] (tick os_ok) 1 loop_st =
      Halt h (mkSt 4 1 true None zero_buf
                   (([] ++ [ERead (ReadErr 5); EErr]) ++ ext)) /\
    count_unexport ext = 1%nat.
Proof.
  destruct (read_error_releases os_ok (fun _ => ReadErr 5) [] 0 loop_st 5
              eq_refl eq_refl) as (h & ext & E & C & _).
  exists h, ext; split; [exact E | exact C].
Defined.

